(** * The portfolio slider of the GofieVFX page (class PortfolioApp)

    A shallow embedding of the carousel code of the main script:
    [setupPortfolioSlider], [initPortfolioSlider], [setupTouchNavigation]
    with its touch, mouse and keyboard listeners, [nextSlide],
    [previousSlide], [goToSlide] and [updateSliderPosition].

    Numbers.  Pixel coordinates, percentages and the resistance and velocity
    constants are JavaScript numbers; they are modelled as exact rationals
    [Q], so 0.3 is three tenths.  Slide indices, slide counts and
    [Date.now()] readings are integers [Z].  The one division whose divisor
    can be zero in the handlers, [Math.abs(diffX) / diffTime], is modelled
    with its JavaScript results Infinity and NaN ([jsnum] below). *)

From Stdlib Require Import Ascii String ZArith NArith QArith Qabs Bool List Lia
  Lqa.
Import ListNotations.

Open Scope Z_scope.

(** ** Numbers *)

(** [a > b] on numbers, as a boolean. *)
Definition Qgtb (a b : Q) : bool := negb (Qle_bool a b).

(** [a < b] on numbers, as a boolean. *)
Definition Qltb (a b : Q) : bool := Qgtb b a.

(** The result of [Math.abs(diffX) / diffTime]: a finite number, or what
    JavaScript yields for a zero divisor. *)
Inductive jsnum : Type :=
| Num (q : Q)
| Infinity
| NaN.

(** [a / b] for a numerator [a >= 0] and an integer divisor [b]. *)
Definition js_div (a : Q) (b : Z) : jsnum :=
  if b =? 0 then (if Qgtb a 0 then Infinity else NaN)
  else Num (a / inject_Z b)%Q.

(** [v > c] for a finite [c]: Infinity exceeds it, NaN compares false. *)
Definition js_gt (v : jsnum) (c : Q) : bool :=
  match v with
  | Num q => Qgtb q c
  | Infinity => true
  | NaN => false
  end.

(** ** State

    The three fields of the PortfolioApp object that the slider uses, the
    local variables captured by the listeners of [setupTouchNavigation],
    the parts of the document the code reads and writes, and the
    environment (clock and pending [setTimeout] callbacks). *)

Record App : Type := mkApp {
  (* this.* *)
  currentSlide : Z;
  totalSlides : Z;
  isAnimating : bool;
  (* let ... in setupTouchNavigation *)
  startX : Q;
  startY : Q;
  currentX : Q;
  currentY : Q;
  isDragging : bool;
  startTime : Z;
  isMobile : bool;
  initialTransform : Q;
  isHorizontalSwipe : bool;
  (* document *)
  trackPresent : bool;   (* getElementById('sliderTrack') is not null *)
  transform : Q;         (* sliderTrack.style.transform = translateX(q%) *)
  transitionOn : bool;   (* sliderTrack.style.transition is the 500ms one *)
  (* environment *)
  clock : Z;             (* Date.now() *)
  timers : list Z        (* due times of the pending setTimeout callbacks *)
}.

Definition set_currentSlide (v : Z) (s : App) : App :=
  mkApp v (totalSlides s) (isAnimating s) (startX s) (startY s) (currentX s)
    (currentY s) (isDragging s) (startTime s) (isMobile s)
    (initialTransform s) (isHorizontalSwipe s) (trackPresent s) (transform s)
    (transitionOn s) (clock s) (timers s).

Definition set_totalSlides (v : Z) (s : App) : App :=
  mkApp (currentSlide s) v (isAnimating s) (startX s) (startY s) (currentX s)
    (currentY s) (isDragging s) (startTime s) (isMobile s)
    (initialTransform s) (isHorizontalSwipe s) (trackPresent s) (transform s)
    (transitionOn s) (clock s) (timers s).

Definition set_isAnimating (v : bool) (s : App) : App :=
  mkApp (currentSlide s) (totalSlides s) v (startX s) (startY s) (currentX s)
    (currentY s) (isDragging s) (startTime s) (isMobile s)
    (initialTransform s) (isHorizontalSwipe s) (trackPresent s) (transform s)
    (transitionOn s) (clock s) (timers s).

Definition set_startX (v : Q) (s : App) : App :=
  mkApp (currentSlide s) (totalSlides s) (isAnimating s) v (startY s)
    (currentX s) (currentY s) (isDragging s) (startTime s) (isMobile s)
    (initialTransform s) (isHorizontalSwipe s) (trackPresent s) (transform s)
    (transitionOn s) (clock s) (timers s).

Definition set_startY (v : Q) (s : App) : App :=
  mkApp (currentSlide s) (totalSlides s) (isAnimating s) (startX s) v
    (currentX s) (currentY s) (isDragging s) (startTime s) (isMobile s)
    (initialTransform s) (isHorizontalSwipe s) (trackPresent s) (transform s)
    (transitionOn s) (clock s) (timers s).

Definition set_currentX (v : Q) (s : App) : App :=
  mkApp (currentSlide s) (totalSlides s) (isAnimating s) (startX s)
    (startY s) v (currentY s) (isDragging s) (startTime s) (isMobile s)
    (initialTransform s) (isHorizontalSwipe s) (trackPresent s) (transform s)
    (transitionOn s) (clock s) (timers s).

Definition set_currentY (v : Q) (s : App) : App :=
  mkApp (currentSlide s) (totalSlides s) (isAnimating s) (startX s)
    (startY s) (currentX s) v (isDragging s) (startTime s) (isMobile s)
    (initialTransform s) (isHorizontalSwipe s) (trackPresent s) (transform s)
    (transitionOn s) (clock s) (timers s).

Definition set_isDragging (v : bool) (s : App) : App :=
  mkApp (currentSlide s) (totalSlides s) (isAnimating s) (startX s)
    (startY s) (currentX s) (currentY s) v (startTime s) (isMobile s)
    (initialTransform s) (isHorizontalSwipe s) (trackPresent s) (transform s)
    (transitionOn s) (clock s) (timers s).

Definition set_startTime (v : Z) (s : App) : App :=
  mkApp (currentSlide s) (totalSlides s) (isAnimating s) (startX s)
    (startY s) (currentX s) (currentY s) (isDragging s) v (isMobile s)
    (initialTransform s) (isHorizontalSwipe s) (trackPresent s) (transform s)
    (transitionOn s) (clock s) (timers s).

Definition set_isMobile (v : bool) (s : App) : App :=
  mkApp (currentSlide s) (totalSlides s) (isAnimating s) (startX s)
    (startY s) (currentX s) (currentY s) (isDragging s) (startTime s) v
    (initialTransform s) (isHorizontalSwipe s) (trackPresent s) (transform s)
    (transitionOn s) (clock s) (timers s).

Definition set_initialTransform (v : Q) (s : App) : App :=
  mkApp (currentSlide s) (totalSlides s) (isAnimating s) (startX s)
    (startY s) (currentX s) (currentY s) (isDragging s) (startTime s)
    (isMobile s) v (isHorizontalSwipe s) (trackPresent s) (transform s)
    (transitionOn s) (clock s) (timers s).

Definition set_isHorizontalSwipe (v : bool) (s : App) : App :=
  mkApp (currentSlide s) (totalSlides s) (isAnimating s) (startX s)
    (startY s) (currentX s) (currentY s) (isDragging s) (startTime s)
    (isMobile s) (initialTransform s) v (trackPresent s) (transform s)
    (transitionOn s) (clock s) (timers s).

Definition set_transform (v : Q) (s : App) : App :=
  mkApp (currentSlide s) (totalSlides s) (isAnimating s) (startX s)
    (startY s) (currentX s) (currentY s) (isDragging s) (startTime s)
    (isMobile s) (initialTransform s) (isHorizontalSwipe s) (trackPresent s)
    v (transitionOn s) (clock s) (timers s).

Definition set_transitionOn (v : bool) (s : App) : App :=
  mkApp (currentSlide s) (totalSlides s) (isAnimating s) (startX s)
    (startY s) (currentX s) (currentY s) (isDragging s) (startTime s)
    (isMobile s) (initialTransform s) (isHorizontalSwipe s) (trackPresent s)
    (transform s) v (clock s) (timers s).

Definition set_clock (v : Z) (s : App) : App :=
  mkApp (currentSlide s) (totalSlides s) (isAnimating s) (startX s)
    (startY s) (currentX s) (currentY s) (isDragging s) (startTime s)
    (isMobile s) (initialTransform s) (isHorizontalSwipe s) (trackPresent s)
    (transform s) (transitionOn s) v (timers s).

Definition set_timers (v : list Z) (s : App) : App :=
  mkApp (currentSlide s) (totalSlides s) (isAnimating s) (startX s)
    (startY s) (currentX s) (currentY s) (isDragging s) (startTime s)
    (isMobile s) (initialTransform s) (isHorizontalSwipe s) (trackPresent s)
    (transform s) (transitionOn s) (clock s) v.

(** ** The slide index store *)

(** [-this.currentSlide * 100], the offset at which a slide is at rest. *)
Definition baseOffset (s : App) : Q := inject_Z (- currentSlide s * 100).

(** [updateSliderPosition]: when the track element is found, engage the
    flag, move the track to the current slide and schedule the callback
    that clears the flag 500 ms later.  (The indicators it also marks are
    not part of the state.) *)
Definition updateSliderPosition (s : App) : App :=
  if negb (trackPresent s) then s
  else
    let s := set_isAnimating true s in
    let s := set_transform (baseOffset s) s in
    set_timers (timers s ++ [clock s + 500]) s.

(** [nextSlide]; [%] is JavaScript's remainder, [Z.rem]. *)
Definition nextSlide (s : App) : App :=
  if isAnimating s || (totalSlides s =? 0) then s
  else
    updateSliderPosition
      (set_currentSlide (Z.rem (currentSlide s + 1) (totalSlides s)) s).

(** [previousSlide]. *)
Definition previousSlide (s : App) : App :=
  if isAnimating s || (totalSlides s =? 0) then s
  else
    updateSliderPosition
      (set_currentSlide
         (if currentSlide s =? 0 then totalSlides s - 1
          else currentSlide s - 1) s).

(** [goToSlide(slideIndex)]. *)
Definition goToSlide (slideIndex : Z) (s : App) : App :=
  if isAnimating s || (totalSlides s =? 0) || (slideIndex =? currentSlide s)
  then s
  else updateSliderPosition (set_currentSlide slideIndex s).

(** The body of the callback given to [setTimeout]. *)
Definition releaseLock (s : App) : App := set_isAnimating false s.

(** [initPortfolioSlider], for a page with [n] slide elements. *)
Definition initPortfolioSlider (n : nat) (s : App) : App :=
  let s := set_totalSlides (Z.of_nat n) s in
  if totalSlides s >? 0 then updateSliderPosition s else s.

(** ** The listeners of [setupTouchNavigation] *)

Definition disableTransition (s : App) : App := set_transitionOn false s.
Definition enableTransition (s : App) : App := set_transitionOn true s.

(** The boundary resistance, which the touchmove and mousemove listeners
    repeat with the factors 0.3 and 0.2: [maxTransform] is 0 and
    [minTransform] is [-(this.totalSlides - 1) * 100]. *)
Definition minTransform (total : Z) : Q := inject_Z (- (total - 1) * 100).
Definition maxTransform : Q := 0%Q.

Definition resistanceTransform (factor : Q) (total : Z) (newTransform : Q) : Q :=
  if Qgtb newTransform maxTransform then
    (maxTransform + (newTransform - maxTransform) * factor)%Q
  else if Qltb newTransform (minTransform total) then
    (minTransform total + (newTransform - minTransform total) * factor)%Q
  else newTransform.

(** [(diffX / sliderContainer.offsetWidth) * 100]; the width of the laid-out
    container is a positive number of pixels. *)
Definition dragOffset (diffX : Q) (offsetWidth : positive) : Q :=
  (diffX / inject_Z (Z.pos offsetWidth) * 100)%Q.

(** A contact point of [e.touches]: (clientX, clientY). *)
Definition touch : Type := (Q * Q)%type.

(** touchstart on the container. *)
Definition touchstart (touches : list touch) (s : App) : App :=
  match touches with
  | [(x, y)] =>
      let s := set_startX x s in
      let s := set_startY y s in
      let s := set_currentX (startX s) s in
      let s := set_currentY (startY s) s in
      let s := set_startTime (clock s) s in
      let s := set_isDragging false s in
      let s := set_isHorizontalSwipe false s in
      set_initialTransform (baseOffset s) s
  | _ => s
  end.

(** touchmove on the container. *)
Definition touchmove (touches : list touch) (offsetWidth : positive) (s : App)
  : App :=
  match touches with
  | [(x, y)] =>
      let s := set_currentX x s in
      let s := set_currentY y s in
      let diffX := (currentX s - startX s)%Q in
      let diffY := (currentY s - startY s)%Q in
      let s :=
        if negb (isDragging s) && negb (isHorizontalSwipe s) then
          let absX := Qabs diffX in
          let absY := Qabs diffY in
          if Qgtb absX 10 || Qgtb absY 10 then
            let s := set_isHorizontalSwipe (Qgtb absX absY && Qgtb absX 15) s in
            if isHorizontalSwipe s then
              disableTransition (set_isDragging true s)
            else s
          else s
        else s in
      if isDragging s && isHorizontalSwipe s then
        let newTransform :=
          (initialTransform s + dragOffset diffX offsetWidth)%Q in
        set_transform (resistanceTransform 0.3 (totalSlides s) newTransform) s
      else s
  | _ => s
  end.

(** The release test shared in shape by touchend and mouseup:
    [(shouldChangeSlide, direction)] from the displacement and the elapsed
    time, for the listener's [threshold], [minVelocity] and the literal
    minimum displacement of its velocity test. *)
Definition swipeDecision (threshold minVelocity minDisplacement : Q)
  (diffX : Q) (diffTime : Z) : bool * Z :=
  let velocity := js_div (Qabs diffX) diffTime in
  if Qgtb (Qabs diffX) threshold then
    (true, if Qgtb diffX 0 then -1 else 1)
  else if js_gt velocity minVelocity && Qgtb (Qabs diffX) minDisplacement then
    (true, if Qgtb diffX 0 then -1 else 1)
  else (false, 0).

(** What both listeners do with the outcome of the test. *)
Definition applyDecision (d : bool * Z) (s : App) : App :=
  let (shouldChangeSlide, direction) := d in
  if shouldChangeSlide then
    if direction >? 0 then nextSlide s else previousSlide s
  else updateSliderPosition s.

(** touchend on the container, after its guard. *)
Definition touchRelease (diffX : Q) (diffTime : Z) (s : App) : App :=
  let s := enableTransition s in
  let s := applyDecision (swipeDecision 50 0.3 20 diffX diffTime) s in
  set_isHorizontalSwipe false (set_isDragging false s).

Definition touchend (s : App) : App :=
  if negb (isDragging s) || negb (isHorizontalSwipe s) then
    set_isHorizontalSwipe false (set_isDragging false s)
  else
    touchRelease (currentX s - startX s)%Q (clock s - startTime s) s.

(** mousedown on the container. *)
Definition mousedown (clientX : Q) (s : App) : App :=
  if isMobile s then s
  else
    let s := set_startX clientX s in
    let s := set_startTime (clock s) s in
    let s := set_isDragging true s in
    let s := set_initialTransform (baseOffset s) s in
    disableTransition s.

(** mousemove on the document. *)
Definition mousemove (clientX : Q) (offsetWidth : positive) (s : App) : App :=
  if negb (isDragging s) || isMobile s then s
  else
    let s := set_currentX clientX s in
    let diffX := (currentX s - startX s)%Q in
    if Qgtb (Qabs diffX) 5 then
      let newTransform :=
        (initialTransform s + dragOffset diffX offsetWidth)%Q in
      set_transform (resistanceTransform 0.2 (totalSlides s) newTransform) s
    else s.

(** mouseup on the document, after its guard. *)
Definition mouseRelease (diffX : Q) (diffTime : Z) (s : App) : App :=
  let s := enableTransition s in
  let s := applyDecision (swipeDecision 80 0.5 30 diffX diffTime) s in
  set_isDragging false s.

Definition mouseup (s : App) : App :=
  if negb (isDragging s) || isMobile s then s
  else mouseRelease (currentX s - startX s)%Q (clock s - startTime s) s.

(** mouseleave on the container. *)
Definition mouseleave (s : App) : App :=
  if isDragging s && negb (isMobile s) then
    set_isDragging false (updateSliderPosition (enableTransition s))
  else s.

(** keydown on the container. *)
Inductive Key : Type := ArrowLeft | ArrowRight | Home | End_ | OtherKey.

Definition keydown (k : Key) (s : App) : App :=
  match k with
  | ArrowLeft => previousSlide s
  | ArrowRight => nextSlide s
  | Home => goToSlide 0 s
  | End_ => goToSlide (totalSlides s - 1) s
  | OtherKey => s
  end.

(** resize on the window. *)
Definition resize (innerWidth : Z) (s : App) : App :=
  set_isMobile (innerWidth <=? 767) s.

(** ** Events

    The events the slider can receive.  [setupPortfolioSlider] and
    [setupTouchNavigation] register a listener for each of them except the
    last two: no touchcancel listener is registered on the container and no
    blur listener on the window, so delivering these runs no slider code.
    [TimerFire] is the run of the oldest pending [setTimeout] callback.
    The gesture and keyboard listeners exist when the track and the
    container were found at set-up; [trackPresent] is what the later lookup
    in [updateSliderPosition] finds. *)
Inductive Event : Type :=
| TouchStart (touches : list touch)
| TouchMove (touches : list touch) (offsetWidth : positive)
| TouchEnd
| MouseDown (clientX : Q)
| MouseMove (clientX : Q) (offsetWidth : positive)
| MouseUp
| MouseLeave
| KeyDown (k : Key)
| ClickPrev
| ClickNext
| ClickIndicator (index : nat)
| Resize (innerWidth : Z)
| TimerFire
| TouchCancel
| WindowBlur.

Definition dispatch (e : Event) (s : App) : App :=
  match e with
  | TouchStart ts => touchstart ts s
  | TouchMove ts w => touchmove ts w s
  | TouchEnd => touchend s
  | MouseDown x => mousedown x s
  | MouseMove x w => mousemove x w s
  | MouseUp => mouseup s
  | MouseLeave => mouseleave s
  | KeyDown k => keydown k s
  | ClickPrev => previousSlide s
  | ClickNext => nextSlide s
  | ClickIndicator i => goToSlide (Z.of_nat i) s
  | Resize w => resize w s
  | TimerFire =>
      match timers s with
      | [] => s
      | _ :: rest => releaseLock (set_timers rest s)
      end
  | TouchCancel => s
  | WindowBlur => s
  end.

(** An event stamped with the time at which its listener runs. *)
Definition stamped : Type := (Z * Event)%type.

Definition step (te : stamped) (s : App) : App :=
  dispatch (snd te) (set_clock (fst te) s).

Fixpoint run (tr : list stamped) (s : App) : App :=
  match tr with
  | [] => s
  | te :: tr' => run tr' (step te s)
  end.

(** The object as the constructor and [setupTouchNavigation] leave it, on a
    window [innerWidth] pixels wide, at time [now]. *)
Definition constructed (innerWidth : Z) (track : bool) (now : Z) : App :=
  mkApp 0 0 false 0 0 0 0 false 0 (innerWidth <=? 767) 0 false
        track 0 true now [].

(** The page after start-up with [n] slides. *)
Definition boot (n : nat) (innerWidth : Z) (now : Z) : App :=
  initPortfolioSlider n (constructed innerWidth true now).

(** ** Vocabulary of the specification *)

(** The two pointer modalities and their constants. *)
Inductive Modality : Type := Touch | Mouse.

Definition commitDistance (m : Modality) : Q :=
  match m with Touch => 50 | Mouse => 80 end.
Definition minDisplacement (m : Modality) : Q :=
  match m with Touch => 20 | Mouse => 30 end.
Definition resistanceFactor (m : Modality) : Q :=
  match m with Touch => 0.3 | Mouse => 0.2 end.

(** The outcome of a release. *)
Inductive Decision : Type := Advance | Retreat | Cancel.

(** What the listeners do for a pair [(shouldChangeSlide, direction)],
    read as an outcome. *)
Definition outcome (d : bool * Z) : Decision :=
  if fst d then (if snd d >? 0 then Advance else Retreat) else Cancel.

Definition perform (d : Decision) (s : App) : App :=
  match d with
  | Advance => nextSlide s
  | Retreat => previousSlide s
  | Cancel => updateSliderPosition s
  end.

(** The release test of the listener of each modality, and the listener's
    body after its guard. *)
Definition listenerDecision (m : Modality) (diffX : Q) (diffTime : Z)
  : bool * Z :=
  match m with
  | Touch => swipeDecision 50 0.3 20 diffX diffTime
  | Mouse => swipeDecision 80 0.5 30 diffX diffTime
  end.

Definition release (m : Modality) (diffX : Q) (diffTime : Z) (s : App) : App :=
  match m with
  | Touch => touchRelease diffX diffTime s
  | Mouse => mouseRelease diffX diffTime s
  end.

(** The drag flags each release listener clears at its end. *)
Definition endDrag (m : Modality) (s : App) : App :=
  match m with
  | Touch => set_isHorizontalSwipe false (set_isDragging false s)
  | Mouse => set_isDragging false s
  end.


(** The index is valid for the deck. *)
Definition validIndex (s : App) : Prop :=
  0 <= currentSlide s < totalSlides s.

(** The index an event carries, if any, is one of the deck. *)
Definition inRangeEvent (e : Event) (s : App) : Prop :=
  match e with
  | ClickIndicator i => Z.of_nat i < totalSlides s
  | _ => True
  end.

(** [k] calls of [nextSlide], the flag cleared before each. *)
Definition advances (k : nat) (s : App) : App :=
  Nat.iter k (fun s => nextSlide (releaseLock s)) s.

(** A touch session owns the gesture: both flags of the listeners are set. *)
Definition horizontalSession (s : App) : bool :=
  isDragging s && isHorizontalSwipe s.

(** The axis classifier in the words of the specification, for a sample
    [(dx, dy)] of displacement since the start of the session. *)
Inductive Axis : Type := Undetermined | Horizontal | Vertical.

Definition AxisClassifier (dx dy : Q) : Axis :=
  if Qle_bool (Qabs dx) 10 && Qle_bool (Qabs dy) 10 then Undetermined
  else if Qgtb (Qabs dx) (Qabs dy) && Qgtb (Qabs dx) 15 then Horizontal
  else Vertical.

(** ** Traces with time *)

(** The times of a trace at which [currentSlide] changes. *)
Fixpoint mutationTimes (tr : list stamped) (s : App) : list Z :=
  match tr with
  | [] => []
  | te :: tr' =>
      let s' := step te s in
      if currentSlide s' =? currentSlide s then mutationTimes tr' s'
      else fst te :: mutationTimes tr' s'
  end.

(** The trace respects time: stamps do not decrease, a callback runs
    exactly when it is due, and no listener runs while a callback is
    overdue. *)
Fixpoint timely (tr : list stamped) (s : App) : bool :=
  match tr with
  | [] => true
  | te :: tr' =>
      (clock s <=? fst te)
      && match snd te with
         | TimerFire =>
             match timers s with
             | [] => false
             | due :: _ => due =? fst te
             end
         | _ => forallb (fun due => fst te <? due) (timers s)
         end
      && timely tr' (step te s)
  end.

(** ** Further vocabulary for the slider *)

(** Events of the buttons, the indicators, the keyboard, the window and
    the timer: everything but the pointer gestures. *)
Definition discrete (e : Event) : bool :=
  match e with
  | KeyDown _ | ClickPrev | ClickNext | ClickIndicator _ | Resize _
  | TimerFire => true
  | _ => false
  end.

(** Mouse events. *)
Definition mouseEvent (e : Event) : bool :=
  match e with
  | MouseDown _ | MouseMove _ _ | MouseUp | MouseLeave => true
  | _ => false
  end.

Definition isTimerFire (e : Event) : bool :=
  match e with TimerFire => true | _ => false end.

(** Consecutive times are at least 500 ms apart. *)
Fixpoint spaced (l : list Z) : Prop :=
  match l with
  | a :: (b :: _) as rest => a + 500 <= b /\ spaced rest
  | _ => True
  end.

(** The flag and the pending callbacks agree: either the flag is clear and
    nothing is pending, or it is set and one callback is pending. *)
Definition lockConsistent (s : App) : Prop :=
  (isAnimating s = false /\ timers s = [])
  \/ (isAnimating s = true /\ exists due, timers s = [due]).

(** A move sample that does not make a session started at [p] horizontal:
    more or fewer than one contact point, or a sample the classifier does
    not call Horizontal. *)
Definition inertSample (p : touch) (ts : list touch) : Prop :=
  match ts with
  | [(x, y)] => AxisClassifier (x - fst p) (y - snd p) <> Horizontal
  | _ => True
  end.

(** The events that start a drag session: their listeners record the
    start position and the base offset. *)
Definition startsDrag (e : Event) : bool :=
  match e with
  | TouchStart _ | MouseDown _ => true
  | _ => false
  end.

(** A trace in which no drag session starts. *)
Definition sameSession (tr : list stamped) : bool :=
  forallb (fun te => negb (startsDrag (snd te))) tr.


(** The displayed offset [v] for a raw offset [raw], a lower bound [lo],
    the upper bound 0 and a resistance factor [f], in the words of the
    specification: [raw] itself inside the range; beyond a bound, the
    bound plus the overshoot times the factor, so that the excess shown is
    the overshoot times the factor and less than the overshoot; the bound
    itself at the bound. *)
Definition Resisted (f lo raw v : Q) : Prop :=
  ((lo <= raw /\ raw <= 0 -> v == raw)
   /\ (0 < raw ->
       v == 0 + (raw - 0) * f /\ v - 0 == (raw - 0) * f /\ v - 0 < raw - 0)
   /\ (raw < lo ->
       v == lo + (raw - lo) * f
       /\ lo - v == (lo - raw) * f /\ lo - v < lo - raw)
   /\ (raw == 0 -> v == 0)
   /\ (raw == lo -> v == lo))%Q.

(** The stamped touchmove events of a list of samples. *)
Definition moveEvents (l : list (Z * list touch * positive)) : list stamped :=
  map (fun m => (fst (fst m), TouchMove (snd (fst m)) (snd m))) l.

(** ** Smooth scrolling: [easeInOutQuad] and [smoothScrollTo]

    Times and positions are numbers, modelled as exact rationals.  The
    duration is a parameter; the one caller passes 800.  A zero duration
    makes the first division yield Infinity or NaN in JavaScript and is
    outside the model (the theorems assume a non-zero duration). *)

(** [easeInOutQuad(t, b, c, d)]. *)
Definition easeInOutQuad (t b c d : Q) : Q :=
  let t := (t / (d / 2))%Q in
  if Qltb t 1 then (c / 2 * t * t + b)%Q
  else
    let t := (t - 1)%Q in
    (- c / 2 * (t * (t - 2) - 1) + b)%Q.

(** One run of the [animation] callback of [smoothScrollTo] at
    [currentTime]: the value of its variable [startTime] afterwards, the
    position given to [window.scrollTo], and whether it asks for another
    frame. *)
Definition animation (startPosition distance duration : Q)
  (animStart : option Q) (currentTime : Q) : Q * Q * bool :=
  let animStart :=
    match animStart with None => currentTime | Some t0 => t0 end in
  let timeElapsed := (currentTime - animStart)%Q in
  let run := easeInOutQuad timeElapsed startPosition distance duration in
  (animStart, run, Qltb timeElapsed duration).

(** The positions scrolled to when the browser delivers animation frames at
    the times [frames]: frames after the one that asks for no other are
    never requested. *)
Fixpoint animationFrames (startPosition distance duration : Q)
  (animStart : option Q) (frames : list Q) : list Q :=
  match frames with
  | [] => []
  | currentTime :: rest =>
      let '(t0, run, again) :=
        animation startPosition distance duration animStart currentTime in
      run :: (if again
              then animationFrames startPosition distance duration
                     (Some t0) rest
              else [])
  end.

(** [smoothScrollTo(targetPosition, duration)] on a page scrolled to
    [pageYOffset]. *)
Definition smoothScrollTo (targetPosition duration pageYOffset : Q)
  (frames : list Q) : list Q :=
  let startPosition := pageYOffset in
  let distance := (targetPosition - startPosition)%Q in
  animationFrames startPosition distance duration None frames.

(** ** The contact form: strings and the e-mail pattern *)

(** A JavaScript string, as the list of its UTF-16 code units. *)
Definition jsstring : Type := list N.

(** The white space of ECMAScript (WhiteSpace and LineTerminator): what
    [\s] matches and what [trim] strips.  TAB, LF, VT, FF, CR, SPACE,
    NBSP, U+1680, U+2000 to U+200A, U+2028, U+2029, U+202F, U+205F,
    U+3000 and U+FEFF. *)
Definition isWhiteSpace (c : N) : bool :=
  ((c =? 9) || (c =? 10) || (c =? 11) || (c =? 12) || (c =? 13)
   || (c =? 32) || (c =? 160) || (c =? 5760)
   || ((8192 <=? c) && (c <=? 8202))
   || (c =? 8232) || (c =? 8233) || (c =? 8239) || (c =? 8287)
   || (c =? 12288) || (c =? 65279))%N.

(** [String.prototype.trim]. *)
Fixpoint trimStart (s : jsstring) : jsstring :=
  match s with
  | [] => []
  | c :: rest => if isWhiteSpace c then trimStart rest else s
  end.

Definition trimEnd (s : jsstring) : jsstring := rev (trimStart (rev s)).

Definition trim (s : jsstring) : jsstring := trimEnd (trimStart s).

(** Regular expressions over code units, as far as the pattern of the form
    needs them: a character class, sequence, and repetition; [Never],
    [Empty] and [Alt] serve the matcher.  [regexTest r s] is
    [r.test(s)] for a pattern anchored by [^] and [$] at both ends. *)
Inductive regex : Type :=
| Never
| Empty
| Class (p : N -> bool)
| Seq (r1 r2 : regex)
| Alt (r1 r2 : regex)
| Star (r : regex).

Definition Plus (r : regex) : regex := Seq r (Star r).

Fixpoint nullable (r : regex) : bool :=
  match r with
  | Never => false
  | Empty => true
  | Class _ => false
  | Seq r1 r2 => nullable r1 && nullable r2
  | Alt r1 r2 => nullable r1 || nullable r2
  | Star _ => true
  end.

(** What is left of [r] to match after the code unit [c]. *)
Fixpoint derive (c : N) (r : regex) : regex :=
  match r with
  | Never => Never
  | Empty => Never
  | Class p => if p c then Empty else Never
  | Seq r1 r2 =>
      if nullable r1 then Alt (Seq (derive c r1) r2) (derive c r2)
      else Seq (derive c r1) r2
  | Alt r1 r2 => Alt (derive c r1) (derive c r2)
  | Star r1 => Seq (derive c r1) (Star r1)
  end.

Fixpoint regexTest (r : regex) (s : jsstring) : bool :=
  match s with
  | [] => nullable r
  | c :: rest => regexTest (derive c r) rest
  end.

(** The strings a pattern matches in full. *)
Inductive matches : regex -> jsstring -> Prop :=
| m_empty : matches Empty []
| m_class p c : p c = true -> matches (Class p) [c]
| m_seq r1 r2 s1 s2 :
    matches r1 s1 -> matches r2 s2 -> matches (Seq r1 r2) (s1 ++ s2)
| m_alt_l r1 r2 s : matches r1 s -> matches (Alt r1 r2) s
| m_alt_r r1 r2 s : matches r2 s -> matches (Alt r1 r2) s
| m_star_nil r : matches (Star r) []
| m_star_cons r s1 s2 :
    matches r s1 -> matches (Star r) s2 -> matches (Star r) (s1 ++ s2).

(** [[^\s@]]: any code unit but white space and [@] (64). *)
Definition plainChar (c : N) : bool := negb (isWhiteSpace c || (c =? 64)%N).

(** [/^[^\s@]+@[^\s@]+\.[^\s@]+$/]; [@] is 64 and [.] is 46. *)
Definition emailRegex : regex :=
  Seq (Plus (Class plainChar))
    (Seq (Class (N.eqb 64))
       (Seq (Plus (Class plainChar))
          (Seq (Class (N.eqb 46))
             (Plus (Class plainChar))))).

(** ** The contact form: validation *)

(** The [data] object of the submit listener, as far as validation reads
    it; a field that [FormData.get] does not find is [None]. *)
Record FormData : Type := mkFormData {
  name : option jsstring;
  email : option jsstring;
  projectType : option jsstring;
  message : option jsstring
}.

(** The [data] that the submit listener of [setupContactForm] builds from
    the values of the form: name, e-mail and message are trimmed, the
    project type is taken as it is. *)
Definition contactData (nameValue emailValue projectTypeValue
                          messageValue : option jsstring) : FormData :=
  mkFormData (option_map trim nameValue) (option_map trim emailValue)
    projectTypeValue (option_map trim messageValue).

(** [!v] for a value that is a string, null or undefined. *)
Definition falsy (v : option jsstring) : bool :=
  match v with
  | None => true
  | Some [] => true
  | Some (_ :: _) => false
  end.

(** [v.length] and [emailRegex.test(v)], read only where [v] is a string. *)
Definition lengthOf (v : option jsstring) : nat :=
  match v with Some s => length s | None => 0%nat end.

Definition testOf (r : regex) (v : option jsstring) : bool :=
  match v with Some s => regexTest r s | None => false end.

(** The [errors] object: its keys with their messages, in insertion
    order. *)
Definition Errors : Type := list (string * string).

(** [validateFormSubmission(data, form)]: the value returned and the
    [errors] object it has filled.  (It gives [errors] to
    [displayFormErrors] and focuses the field of the first key.) *)
Definition validateFormSubmission (data : FormData) : bool * Errors :=
  let isValid := true in
  let errors : Errors := [] in
  (* Name validation *)
  let '(isValid, errors) :=
    if falsy (name data) || (lengthOf (name data) <? 2)%nat then
      (false,
       errors ++ [("name", "Name must be at least 2 characters long")%string])
    else if (50 <? lengthOf (name data))%nat then
      (false,
       errors ++ [("name", "Name must be less than 50 characters")%string])
    else (isValid, errors) in
  (* Email validation *)
  let '(isValid, errors) :=
    if falsy (email data) then
      (false, errors ++ [("email", "Email is required")%string])
    else if negb (testOf emailRegex (email data)) then
      (false,
       errors ++ [("email", "Please enter a valid email address")%string])
    else (isValid, errors) in
  (* Project type validation *)
  let '(isValid, errors) :=
    if falsy (projectType data) then
      (false,
       errors ++ [("projectType", "Please select a project type")%string])
    else (isValid, errors) in
  (* Message validation *)
  let '(isValid, errors) :=
    if falsy (message data) then
      (false, errors ++ [("message", "Message is required")%string])
    else if (lengthOf (message data) <? 10)%nat then
      (false,
       errors
       ++ [("message", "Message must be at least 10 characters long")%string])
    else if (1000 <? lengthOf (message data))%nat then
      (false,
       errors
       ++ [("message", "Message must be less than 1000 characters")%string])
    else (isValid, errors) in
  (isValid, errors).

(** [Object.keys(errors)[0]], the field that is focused. *)
Definition firstErrorField (errors : Errors) : option string :=
  match errors with
  | [] => None
  | (k, _) :: _ => Some k
  end.

(** An input, select or textarea of the form, as [validateField] sees it:
    its name, its value and its two state classes. *)
Record Field : Type := mkField {
  fieldName : string;
  fieldValue : jsstring;
  classError : bool;
  classValid : bool
}.

(** [validateField(field)]: the value returned, the message it shows (the
    empty string when the field is valid) and the field with its classes
    updated. *)
Definition validateField (field : Field) : bool * string * Field :=
  let value := trim (fieldValue field) in
  let isValid := true in
  let errorMessage := ""%string in
  let '(isValid, errorMessage) :=
    if String.eqb (fieldName field) "name" then
      if (length value =? 0)%nat then (false, "Name is required"%string)
      else if (length value <? 2)%nat then
        (false, "Name must be at least 2 characters long"%string)
      else if (50 <? length value)%nat then
        (false, "Name must be less than 50 characters"%string)
      else (isValid, errorMessage)
    else if String.eqb (fieldName field) "email" then
      if (length value =? 0)%nat then (false, "Email is required"%string)
      else if negb (regexTest emailRegex value) then
        (false, "Please enter a valid email address"%string)
      else (isValid, errorMessage)
    else if String.eqb (fieldName field) "projectType" then
      if falsy (Some value) then
        (false, "Please select a project type"%string)
      else (isValid, errorMessage)
    else if String.eqb (fieldName field) "message" then
      if (length value =? 0)%nat then (false, "Message is required"%string)
      else if (length value <? 10)%nat then
        (false, "Message must be at least 10 characters long"%string)
      else if (1000 <? length value)%nat then
        (false, "Message must be less than 1000 characters"%string)
      else (isValid, errorMessage)
    else (isValid, errorMessage) in
  let field :=
    if isValid then
      mkField (fieldName field) (fieldValue field) false true
    else
      mkField (fieldName field) (fieldValue field) true false in
  (isValid, errorMessage, field).

(** The counter of the message field: [updateCounter] for a message of
    [currentLength] code units gives the classes [warning] and [error] of
    the counter container.  [maxLength * 0.9] is 900. *)
Definition updateCounter (currentLength : nat) : bool * bool :=
  let maxLength := 1000%Q in
  let warning := false in
  let error := false in
  let warning :=
    if Qgtb (inject_Z (Z.of_nat currentLength)) (maxLength * 0.9)
    then true else warning in
  let error :=
    if Qgtb (inject_Z (Z.of_nat currentLength)) maxLength
    then true else error in
  (warning, error).

(** What the form requires of each value, as tests. *)
Definition nameOk (data : FormData) : bool :=
  (2 <=? lengthOf (name data))%nat && (lengthOf (name data) <=? 50)%nat.
Definition emailOk (data : FormData) : bool :=
  testOf emailRegex (email data).
Definition projectTypeOk (data : FormData) : bool :=
  negb (falsy (projectType data)).
Definition messageOk (data : FormData) : bool :=
  (10 <=? lengthOf (message data))%nat
  && (lengthOf (message data) <=? 1000)%nat.

(** The entry that each of the four blocks of [validateFormSubmission]
    adds to [errors]: none or one. *)
Definition nameErrors (data : FormData) : Errors :=
  if falsy (name data) || (lengthOf (name data) <? 2)%nat then
    [("name", "Name must be at least 2 characters long")%string]
  else if (50 <? lengthOf (name data))%nat then
    [("name", "Name must be less than 50 characters")%string]
  else [].

Definition emailErrors (data : FormData) : Errors :=
  if falsy (email data) then [("email", "Email is required")%string]
  else if negb (testOf emailRegex (email data)) then
    [("email", "Please enter a valid email address")%string]
  else [].

Definition projectTypeErrors (data : FormData) : Errors :=
  if falsy (projectType data) then
    [("projectType", "Please select a project type")%string]
  else [].

Definition messageErrors (data : FormData) : Errors :=
  if falsy (message data) then [("message", "Message is required")%string]
  else if (lengthOf (message data) <? 10)%nat then
    [("message", "Message must be at least 10 characters long")%string]
  else if (1000 <? lengthOf (message data))%nat then
    [("message", "Message must be less than 1000 characters")%string]
  else [].

(** The verdict of [validateField] on a field of the given name and value,
    whatever its classes. *)
Definition fieldVerdict (fname : string) (value : jsstring) : bool :=
  fst (fst (validateField (mkField fname value false false))).

Definition fieldMessage (fname : string) (value : jsstring) : string :=
  snd (fst (validateField (mkField fname value false false))).

(** ** Keyboard navigation between the navigation links *)

Inductive NavKey : Type :=
| NavArrowRight | NavArrowDown | NavArrowLeft | NavArrowUp
| NavHome | NavEnd | NavOther.

(** The keydown listener that [setupKeyboardNavigation] puts on the link at
    [index] of the [n] navigation links: the index of the link it
    focuses, if any.  [%] is on non-negative integers. *)
Definition navLinkKeydown (n index : nat) (key : NavKey) : option nat :=
  match key with
  | NavArrowRight | NavArrowDown => Some ((index + 1) mod n)%nat
  | NavArrowLeft | NavArrowUp =>
      Some (if (index =? 0)%nat then (n - 1)%nat else (index - 1)%nat)
  | NavHome => Some 0%nat
  | NavEnd => Some (n - 1)%nat
  | NavOther => None
  end.

(** The link focused after a sequence of keys, each delivered to the link
    that has the focus. *)
Fixpoint navLinkKeys (n index : nat) (keys : list NavKey) : nat :=
  match keys with
  | [] => index
  | key :: rest =>
      match navLinkKeydown n index key with
      | Some i => navLinkKeys n i rest
      | None => navLinkKeys n index rest
      end
  end.

(** ** The mobile menu

    The class [active] of the toggle, the class [active] of the menu and
    the class [nav-open] of the body. *)
Record Menu : Type := mkMenu {
  toggleActive : bool;
  menuActive : bool;
  navOpen : bool
}.

(** The three [classList.remove] calls that every closing listener makes. *)
Definition closeMenu (m : Menu) : Menu := mkMenu false false false.

(** pointerdown on the toggle ([setupMobileMenu]): three [classList.toggle]
    calls. *)
Definition togglePointerdown (m : Menu) : Menu :=
  mkMenu (negb (toggleActive m)) (negb (menuActive m)) (negb (navOpen m)).

(** click on a navigation link. *)
Definition navLinkClick (m : Menu) : Menu := closeMenu m.

(** click on the document; the two flags say whether the toggle and the
    menu contain the target. *)
Definition documentClick (inToggle inMenu : bool) (m : Menu) : Menu :=
  if negb inToggle && negb inMenu then
    if menuActive m then closeMenu m else m
  else m.

(** keydown on the document. *)
Definition documentKeydown (isEscape : bool) (m : Menu) : Menu :=
  if isEscape && menuActive m then closeMenu m else m.

(** resize of the window. *)
Definition menuResize (innerWidth : Z) (m : Menu) : Menu :=
  if (innerWidth >? 767) && menuActive m then closeMenu m else m.

(** The [onclick] that [initEmergencyMenu] puts on the toggle (and the
    [fallbackToggle] of the delayed fallback, which has the same body). *)
Definition emergencyClick (m : Menu) : Menu :=
  let isActive := menuActive m in
  if isActive then mkMenu false false false else mkMenu true true true.

(** The listeners of the menu, as events. *)
Inductive MenuEvent : Type :=
| TogglePointerdown
| ToggleOnclick
| NavLinkClick
| DocumentClick (inToggle inMenu : bool)
| DocumentKeydown (isEscape : bool)
| MenuResize (innerWidth : Z).

Definition menuStep (m : Menu) (e : MenuEvent) : Menu :=
  match e with
  | TogglePointerdown => togglePointerdown m
  | ToggleOnclick => emergencyClick m
  | NavLinkClick => navLinkClick m
  | DocumentClick t u => documentClick t u m
  | DocumentKeydown k => documentKeydown k m
  | MenuResize w => menuResize w m
  end.

(** The three classes agree. *)
Definition menuSynced (m : Menu) : Prop :=
  toggleActive m = menuActive m /\ navOpen m = menuActive m.

(** ** The back-to-top button

    The variables [isVisible] and [scrollThreshold] of [setupBackToTop]
    and the classes [visible] and [hidden] of the button. *)
Record BackToTop : Type := mkBackToTop {
  isVisible : bool;
  scrollThreshold : Q;
  classVisible : bool;
  classHidden : bool
}.

(** The state after [setupBackToTop], which installs the listeners only on
    a window at most 767 pixels wide that has the button. *)
Definition backToTopSetup : BackToTop := mkBackToTop false 300 false false.

(** The animation-frame callback of [handleScroll], for the scroll
    position [scrollTop]. *)
Definition scrollFrame (scrollTop : Q) (b : BackToTop) : BackToTop :=
  if Qgtb scrollTop (scrollThreshold b) && negb (isVisible b) then
    mkBackToTop true (scrollThreshold b) true false
  else if Qle_bool scrollTop (scrollThreshold b) && isVisible b then
    mkBackToTop false (scrollThreshold b) false true
  else b.

(** The callback scheduled 300 ms after hiding. *)
Definition hiddenTimeout (b : BackToTop) : BackToTop :=
  if negb (isVisible b) then
    mkBackToTop (isVisible b) (scrollThreshold b) (classVisible b) false
  else b.

(** The callback scheduled 100 ms after orientationchange. *)
Definition orientationTimeout (innerHeight : Q) (b : BackToTop) : BackToTop :=
  mkBackToTop (isVisible b) (innerHeight * 0.4) (classVisible b)
    (classHidden b).

(** resize of the window. *)
Definition backToTopResize (innerWidth : Z) (b : BackToTop) : BackToTop :=
  if (innerWidth >? 767) && isVisible b then
    mkBackToTop false (scrollThreshold b) false true
  else b.

Inductive BackToTopEvent : Type :=
| ScrollFrame (scrollTop : Q)
| HiddenTimeout
| OrientationTimeout (innerHeight : Q)
| BackToTopResize (innerWidth : Z).

Definition backToTopStep (b : BackToTop) (e : BackToTopEvent) : BackToTop :=
  match e with
  | ScrollFrame y => scrollFrame y b
  | HiddenTimeout => hiddenTimeout b
  | OrientationTimeout h => orientationTimeout h b
  | BackToTopResize w => backToTopResize w b
  end.

(** The class [visible] follows [isVisible], and [hidden] is only on a
    button that does not count as visible. *)
Definition backToTopCoherent (b : BackToTop) : Prop :=
  classVisible b = isVisible b
  /\ (classHidden b = true -> isVisible b = false).

(** ** Highlighting of the active navigation link *)

(** The code pastes the id of the active section into the selector
    [.nav-link[href="#id"]].  Inside the double quotes of a selector every
    character stands for itself except the backslash (92), which starts an
    escape, the double quote (34), which ends the string, the line breaks
    LF, FF and CR (10, 12, 13), which make the selector invalid, and NUL
    (0), which the parser replaces.  For an id free of these six the
    selector matches a link exactly when its [href] attribute is the
    string ["#" ++ id]. *)
Definition selectorSafeChar (c : ascii) : bool :=
  negb ((N_of_ascii c =? 0)%N || (N_of_ascii c =? 10)%N
        || (N_of_ascii c =? 12)%N || (N_of_ascii c =? 13)%N
        || (N_of_ascii c =? 34)%N || (N_of_ascii c =? 92)%N).

Fixpoint selectorSafe (id : string) : bool :=
  match id with
  | EmptyString => true
  | String c rest => selectorSafeChar c && selectorSafe rest
  end.

(** A [section[id]] element: its id, [offsetTop] and [offsetHeight].  The
    sections of the model are those whose id the selector takes literally;
    an id with one of the six characters above (for which the code selects
    another link or [querySelector] throws) is not a section of the
    model. *)
Record Section_ : Type := mkSection {
  sectionId : string;
  offsetTop : Q;
  offsetHeight : Q;
  sectionIdSafe : selectorSafe sectionId = true
}.

(** A [.nav-link] element: its [href] and whether it carries [active]
    (its [aria-current] follows the class). *)
Record NavLink : Type := mkNavLink {
  href : string;
  linkActive : bool
}.

(** The [forEach] over the sections in [updateActiveNavOnScroll]: the last
    section, in document order, that holds [scrollPosition]. *)
Definition activeSectionAt (sections : list Section_) (scrollPosition : Q)
  : option Section_ :=
  fold_left
    (fun activeSection section =>
       let sectionTop := offsetTop section in
       let sectionBottom := (sectionTop + offsetHeight section)%Q in
       if Qle_bool sectionTop scrollPosition
          && Qle_bool scrollPosition sectionBottom
       then Some section else activeSection)
    sections None.

(** [classList.add('active')] on the link that
    [querySelector('.nav-link[href="#id"]')] finds: for an id that the
    selector takes literally, the first link, in document order, whose
    [href] attribute is [target]. *)
Fixpoint activateFirst (target : string) (navLinks : list NavLink)
  : list NavLink :=
  match navLinks with
  | [] => []
  | link :: rest =>
      if String.eqb (href link) target
      then mkNavLink (href link) true :: rest
      else link :: activateFirst target rest
  end.

(** What both the observer callback and [updateActiveNavOnScroll] do once
    they have an active section. *)
Definition highlight (activeSection : option Section_)
  (navLinks : list NavLink) : list NavLink :=
  match activeSection with
  | None => navLinks
  | Some section =>
      activateFirst ("#" ++ sectionId section)%string
        (map (fun link => mkNavLink (href link) false) navLinks)
  end.

(** [updateActiveNavOnScroll]. *)
Definition updateActiveNavOnScroll (sections : list Section_)
  (navLinks : list NavLink) (scrollY innerHeight : Q) : list NavLink :=
  let scrollPosition := (scrollY + innerHeight / 3)%Q in
  highlight (activeSectionAt sections scrollPosition) navLinks.

(** An entry given to the callback of the intersection observer: the
    section observed, [isIntersecting] and [intersectionRatio]. *)
Record Entry : Type := mkEntry {
  target : Section_;
  isIntersecting : bool;
  intersectionRatio : Q
}.

(** The [forEach] over the entries in the observer callback of
    [setupActiveNavigation]: [(maxRatio, activeSection)] at its end. *)
Definition mostVisible (entries : list Entry) : Q * option Section_ :=
  fold_left
    (fun acc entry =>
       let '(maxRatio, activeSection) := acc in
       if isIntersecting entry && Qgtb (intersectionRatio entry) maxRatio
       then (intersectionRatio entry, Some (target entry))
       else acc)
    entries (0%Q, None).

(** ** Sample sessions *)

(** The move samples of a session, delivered in order. *)
Definition touchmoves (l : list (list touch * positive)) (s : App) : App :=
  fold_left (fun s m => touchmove (fst m) (snd m) s) l s.

(** A 20-pixel touch drag in progress on the first of five slides, flag
    clear; and the same drag when its release arrives, 400 ms after its
    start. *)
Definition touchDrag : App :=
  run [(1000, TouchStart [(100 # 1, 100 # 1)]);
       (1010, TouchMove [(120 # 1, 100 # 1)] 300)]
    (releaseLock (boot 5 1024 0)).

Definition slowDrag : App := set_clock 1400 touchDrag.

(** A mouse drag of 45 pixels to the right in progress on the first of
    five slides. *)
Definition mouseDrag : App :=
  run [(1000, MouseDown (200 # 1)); (1050, MouseMove (245 # 1) 300)]
    (releaseLock (boot 5 1024 0)).

(** A touch drag of 60 pixels to the left, begun 100 ms after start-up and
    about to be released 200 ms later, while the flag set by
    [initPortfolioSlider] is still on. *)
Definition earlyDrag : App :=
  set_clock 300
    (run [(100, TouchStart [(200 # 1, 100 # 1)]);
          (150, TouchMove [(140 # 1, 100 # 1)] 300)]
       (boot 5 1024 0)).

(** Start-up with five slides at time 0; the flag it sets is released at
    500 and slide 1 is shown at 600.  A mouse drag of 10 pixels between 800
    and 900 snaps back while that transition is running and schedules a
    second release for 1400.  The first release runs at 1100, slide 2 is
    shown at 1200, and the release left over from the snap-back clears the
    flag at 1400, so slide 3 is shown at 1450. *)
Definition staleTimerTrace : list stamped :=
  [(500, TimerFire); (600, ClickNext);
   (800, MouseDown (200 # 1)); (850, MouseMove (210 # 1) 300); (900, MouseUp);
   (1100, TimerFire); (1200, ClickNext);
   (1400, TimerFire); (1450, ClickNext)].

(** ** Tactics *)

Ltac split_ifs :=
  repeat match goal with
         | |- context [if ?b then _ else _] => destruct b
         end.

Ltac reflect_nat :=
  repeat match goal with
         | H : (_ <? _)%nat = true |- _ => apply Nat.ltb_lt in H
         | H : (_ <? _)%nat = false |- _ => apply Nat.ltb_ge in H
         | H : (_ <=? _)%nat = true |- _ => apply Nat.leb_le in H
         | H : (_ <=? _)%nat = false |- _ => apply Nat.leb_gt in H
         | H : (_ =? _)%nat = true |- _ => apply Nat.eqb_eq in H
         | H : (_ =? _)%nat = false |- _ => apply Nat.eqb_neq in H
         end.

(** ** Basic facts *)

Lemma Qgtb_lt (a b : Q) : Qgtb a b = true <-> (b < a)%Q.
Proof.
  unfold Qgtb. rewrite negb_true_iff.
  split; intro H.
  - apply Qnot_le_lt. intro Hle. apply Qle_bool_iff in Hle. congruence.
  - destruct (Qle_bool a b) eqn:E; trivial.
    apply Qle_bool_iff in E. exfalso. exact (Qlt_not_le _ _ H E).
Qed.

Lemma Qgtb_le (a b : Q) : Qgtb a b = false <-> (a <= b)%Q.
Proof.
  unfold Qgtb. rewrite negb_false_iff. apply Qle_bool_iff.
Qed.

Lemma Qltb_lt (a b : Q) : Qltb a b = true <-> (a < b)%Q.
Proof. unfold Qltb. apply Qgtb_lt. Qed.

Lemma Qltb_ge (a b : Q) : Qltb a b = false <-> (b <= a)%Q.
Proof. unfold Qltb. apply Qgtb_le. Qed.

Lemma updateSliderPosition_index (s : App) :
  currentSlide (updateSliderPosition s) = currentSlide s.
Proof.
  unfold updateSliderPosition. destruct (trackPresent s); reflexivity.
Qed.

Lemma updateSliderPosition_total (s : App) :
  totalSlides (updateSliderPosition s) = totalSlides s.
Proof.
  unfold updateSliderPosition. destruct (trackPresent s); reflexivity.
Qed.

Lemma nextSlide_index (s : App) :
  isAnimating s = false -> totalSlides s <> 0 ->
  currentSlide (nextSlide s) = Z.rem (currentSlide s + 1) (totalSlides s).
Proof.
  intros Ha Hn. unfold nextSlide. rewrite Ha.
  apply Z.eqb_neq in Hn. rewrite Hn. simpl.
  now rewrite updateSliderPosition_index.
Qed.

Lemma nextSlide_total (s : App) : totalSlides (nextSlide s) = totalSlides s.
Proof.
  unfold nextSlide.
  destruct (isAnimating s || (totalSlides s =? 0)); trivial.
  now rewrite updateSliderPosition_total.
Qed.

Lemma previousSlide_total (s : App) :
  totalSlides (previousSlide s) = totalSlides s.
Proof.
  unfold previousSlide.
  destruct (isAnimating s || (totalSlides s =? 0)); trivial.
  now rewrite updateSliderPosition_total.
Qed.

Lemma goToSlide_total (i : Z) (s : App) :
  totalSlides (goToSlide i s) = totalSlides s.
Proof.
  unfold goToSlide.
  destruct (isAnimating s || (totalSlides s =? 0) || (i =? currentSlide s));
    trivial.
  now rewrite updateSliderPosition_total.
Qed.

Lemma updateSliderPosition_valid (s : App) :
  validIndex s -> validIndex (updateSliderPosition s).
Proof.
  unfold validIndex. intros H.
  now rewrite updateSliderPosition_index, updateSliderPosition_total.
Qed.

Lemma nextSlide_valid (s : App) : validIndex s -> validIndex (nextSlide s).
Proof.
  intros H. unfold nextSlide.
  destruct (isAnimating s || (totalSlides s =? 0)); trivial.
  apply updateSliderPosition_valid. unfold validIndex in *. simpl.
  rewrite Z.rem_mod_nonneg by lia.
  apply Z.mod_pos_bound. lia.
Qed.

Lemma previousSlide_valid (s : App) :
  validIndex s -> validIndex (previousSlide s).
Proof.
  intros H. unfold previousSlide.
  destruct (isAnimating s || (totalSlides s =? 0)); trivial.
  apply updateSliderPosition_valid. unfold validIndex in *. simpl.
  destruct (currentSlide s =? 0) eqn:E; [|apply Z.eqb_neq in E]; lia.
Qed.

Lemma goToSlide_valid (i : Z) (s : App) :
  0 <= i < totalSlides s -> validIndex s -> validIndex (goToSlide i s).
Proof.
  intros Hi H. unfold goToSlide.
  destruct (isAnimating s || (totalSlides s =? 0) || (i =? currentSlide s));
    trivial.
  apply updateSliderPosition_valid. unfold validIndex in *. simpl. lia.
Qed.

Lemma applyDecision_perform (d : bool * Z) (s : App) :
  applyDecision d s = perform (outcome d) s.
Proof.
  destruct d as [[|] dir]; unfold applyDecision, outcome; simpl; trivial.
  destruct (dir >? 0); trivial.
Qed.

Lemma perform_valid (d : Decision) (s : App) :
  validIndex s -> validIndex (perform d s).
Proof.
  destruct d; simpl; auto using nextSlide_valid, previousSlide_valid,
    updateSliderPosition_valid.
Qed.

(** ** The index store: next, previous and goTo *)

Lemma releaseLock_fields (s : App) :
  currentSlide (releaseLock s) = currentSlide s
  /\ totalSlides (releaseLock s) = totalSlides s
  /\ isAnimating (releaseLock s) = false.
Proof. unfold releaseLock. simpl. auto. Qed.

Lemma advances_total (k : nat) (s : App) :
  totalSlides (advances k s) = totalSlides s.
Proof.
  induction k as [|k IH]; simpl; trivial.
  unfold advances in *. simpl. rewrite nextSlide_total. exact IH.
Qed.

Lemma advances_index (k : nat) (s : App) :
  validIndex s ->
  currentSlide (advances k s)
  = (currentSlide s + Z.of_nat k) mod totalSlides s.
Proof.
  unfold validIndex. intros Hv. induction k as [|k IH].
  - simpl. rewrite Z.add_0_r. symmetry. apply Z.mod_small. exact Hv.
  - change (advances (S k) s) with (nextSlide (releaseLock (advances k s))).
    pose proof (advances_total k s) as Ht.
    destruct (releaseLock_fields (advances k s)) as (Hc & Hn & Ha).
    rewrite nextSlide_index; rewrite ?Hn, ?Hc, ?Ht; trivial; try lia.
    rewrite IH.
    rewrite Z.rem_mod_nonneg.
    + rewrite Z.add_mod_idemp_l by lia. f_equal. lia.
    + pose proof (Z.mod_pos_bound (currentSlide s + Z.of_nat k)
                    (totalSlides s)). lia.
    + lia.
Qed.

(** C6 (wrap invariant).  With at least one slide: a call of [nextSlide]
    made while the flag is clear, on an index that is not negative, sets
    the index to
    (index + 1) mod n; from index 0, n calls with the flag cleared before
    each return to index 0; and a call from index n - 1 wraps to 0. *)
Theorem nextSlide_wraps (s : App) :
  1 <= totalSlides s ->
  (isAnimating s = false -> 0 <= currentSlide s ->
   currentSlide (nextSlide s) = (currentSlide s + 1) mod totalSlides s)
  /\ (currentSlide s = 0 ->
      currentSlide (advances (Z.to_nat (totalSlides s)) s) = 0)
  /\ (isAnimating s = false -> currentSlide s = totalSlides s - 1 ->
      currentSlide (nextSlide s) = 0).
Proof.
  intros Hn. repeat split.
  - intros Ha Hv.
    rewrite nextSlide_index by (trivial; lia).
    apply Z.rem_mod_nonneg; lia.
  - intros H0. rewrite advances_index by (unfold validIndex; lia).
    rewrite H0, Z2Nat.id by lia. simpl. apply Z.mod_same. lia.
  - intros Ha Hc. rewrite nextSlide_index by (trivial; lia).
    rewrite Hc. replace (totalSlides s - 1 + 1) with (totalSlides s) by lia.
    apply Z.rem_same. lia.
Qed.

Lemma nextSlide_wraps_witness :
  let s := releaseLock (boot 5 1024 0) in
  let s4 := releaseLock (goToSlide 4 s) in
  currentSlide (nextSlide s) = 1
  /\ currentSlide (advances 5 s) = 0
  /\ currentSlide (nextSlide s4) = 0.
Proof.
  intros s s4.
  assert (H5 : 1 <= totalSlides s) by (vm_compute; discriminate).
  assert (H5' : 1 <= totalSlides s4) by (vm_compute; discriminate).
  destruct (nextSlide_wraps s H5) as (A & B & _).
  destruct (nextSlide_wraps s4 H5') as (_ & _ & C).
  split; [|split].
  - apply A; [reflexivity | vm_compute; discriminate].
  - apply B. reflexivity.
  - apply C; reflexivity.
Defined.

Lemma validIndex_ext (s s' : App) :
  currentSlide s' = currentSlide s -> totalSlides s' = totalSlides s ->
  validIndex s -> validIndex s'.
Proof. unfold validIndex. intros -> ->. trivial. Qed.

Lemma touchstart_valid (ts : list touch) (s : App) :
  validIndex s -> validIndex (touchstart ts s).
Proof.
  intros H. unfold touchstart.
  destruct ts as [|[x y] [|? ?]]; trivial.
Qed.

Lemma touchmove_valid (ts : list touch) (w : positive) (s : App) :
  validIndex s -> validIndex (touchmove ts w s).
Proof.
  intros H. unfold touchmove.
  destruct ts as [|[x y] [|? ?]]; trivial.
  cbv zeta. split_ifs; exact H.
Qed.

Lemma touchend_valid (s : App) : validIndex s -> validIndex (touchend s).
Proof.
  intros H. unfold touchend, touchRelease.
  destruct (negb (isDragging s) || negb (isHorizontalSwipe s)); trivial.
  cbv zeta. rewrite applyDecision_perform.
  eapply validIndex_ext; [reflexivity | reflexivity |].
  apply perform_valid. exact H.
Qed.

Lemma mousedown_valid (x : Q) (s : App) :
  validIndex s -> validIndex (mousedown x s).
Proof. intros H. unfold mousedown. destruct (isMobile s); trivial. Qed.

Lemma mousemove_valid (x : Q) (w : positive) (s : App) :
  validIndex s -> validIndex (mousemove x w s).
Proof.
  intros H. unfold mousemove. cbv zeta. split_ifs; exact H.
Qed.

Lemma mouseup_valid (s : App) : validIndex s -> validIndex (mouseup s).
Proof.
  intros H. unfold mouseup, mouseRelease.
  destruct (negb (isDragging s) || isMobile s); trivial.
  cbv zeta. rewrite applyDecision_perform.
  eapply validIndex_ext; [reflexivity | reflexivity |].
  apply perform_valid. exact H.
Qed.

Lemma mouseleave_valid (s : App) : validIndex s -> validIndex (mouseleave s).
Proof.
  intros H. unfold mouseleave.
  destruct (isDragging s && negb (isMobile s)); trivial.
  eapply validIndex_ext; [reflexivity | reflexivity |].
  apply updateSliderPosition_valid. exact H.
Qed.

Create HintDb slider_valid.
#[local] Hint Resolve touchstart_valid touchmove_valid touchend_valid
  mousedown_valid mousemove_valid mouseup_valid mouseleave_valid
  nextSlide_valid previousSlide_valid updateSliderPosition_valid
  : slider_valid.

Lemma dispatch_valid (e : Event) (s : App) :
  validIndex s -> inRangeEvent e s -> validIndex (dispatch e s).
Proof.
  intros H He. destruct e; simpl in *; auto with slider_valid.
  - destruct k; simpl; auto with slider_valid;
      apply goToSlide_valid; trivial; unfold validIndex in H; lia.
  - apply goToSlide_valid; trivial. lia.
  - destruct (timers s); trivial.
Qed.

(** C1, as the code has it.  [goToSlide] tests the flag, the slide count
    and equality with the current index, and nothing else: in those three
    cases it returns the state as it is; in every other case it stores the
    index it was given, inside the deck or not.  The index stays valid under
    every event whose index argument is one of the deck. *)
Theorem goToSlide_unchecked (s : App) (i : Z) :
  (isAnimating s = true \/ totalSlides s = 0 \/ i = currentSlide s ->
   goToSlide i s = s)
  /\ (isAnimating s = false -> totalSlides s <> 0 ->
      currentSlide (goToSlide i s) = i)
  /\ (validIndex s ->
      forall e, inRangeEvent e s -> validIndex (dispatch e s)).
Proof.
  split; [|split].
  - unfold goToSlide. intros [Ha | [Hn | Hi]].
    + now rewrite Ha.
    + rewrite Hn. simpl. now rewrite orb_true_r.
    + subst i. rewrite Z.eqb_refl. now rewrite orb_true_r.
  - intros Ha Hn. unfold goToSlide. rewrite Ha.
    apply Z.eqb_neq in Hn. rewrite Hn. simpl.
    destruct (i =? currentSlide s) eqn:E.
    + symmetry. now apply Z.eqb_eq.
    + now rewrite updateSliderPosition_index.
  - intros Hv e He. now apply dispatch_valid.
Qed.

Lemma goToSlide_unchecked_witness :
  let s := releaseLock (boot 5 1024 0) in
  goToSlide 0 s = s
  /\ currentSlide (goToSlide 3 s) = 3
  /\ validIndex (dispatch (ClickIndicator 3) s).
Proof.
  intros s.
  split; [|split].
  - apply (goToSlide_unchecked s 0). right; right. reflexivity.
  - apply (goToSlide_unchecked s 3); [reflexivity | vm_compute; discriminate].
  - apply (goToSlide_unchecked s 0).
    + vm_compute. split; [discriminate | reflexivity].
    + vm_compute. reflexivity.
Defined.

(** C1 as stated fails: with five slides, index 0 and the flag clear,
    [goToSlide 7] stores 7, which is outside [0, 5). *)
Lemma goToSlide_out_of_range :
  let s := releaseLock (boot 5 1024 0) in
  totalSlides s = 5 /\ currentSlide s = 0 /\ ~ (0 <= 7 < totalSlides s)
  /\ currentSlide (goToSlide 7 s) = 7
  /\ ~ validIndex (goToSlide 7 s).
Proof.
  vm_compute. repeat split; try reflexivity.
  - intros [_ H]. discriminate H.
  - intros [_ H]. discriminate H.
Qed.

(** ** The commit evaluator *)




(** ** The resistance mapper *)

Lemma minTransform_nonpos (total : Z) :
  1 <= total -> (minTransform total <= 0)%Q.
Proof.
  intros H. unfold minTransform.
  change 0%Q with (inject_Z 0). rewrite <- Zle_Qle. lia.
Qed.

Lemma resistanceFactor_range (m : Modality) :
  (0 < resistanceFactor m /\ resistanceFactor m < 1)%Q.
Proof. destruct m; simpl; split; reflexivity. Qed.

Lemma touchmove_shows (s : App) (x y : Q) (w : positive) :
  horizontalSession s = true ->
  transform (touchmove [(x, y)] w s)
  = resistanceTransform 0.3 (totalSlides s)
      (initialTransform s + dragOffset (x - startX s) w)%Q.
Proof.
  intros Hs. unfold horizontalSession in Hs.
  apply andb_true_iff in Hs. destruct Hs as [Hd Hh].
  unfold touchmove. cbv zeta. simpl.
  rewrite Hd, Hh. simpl. rewrite Hd, Hh. reflexivity.
Qed.

Lemma mousemove_shows (s : App) (x : Q) (w : positive) :
  isDragging s = true -> isMobile s = false ->
  (5 < Qabs (x - startX s))%Q ->
  transform (mousemove x w s)
  = resistanceTransform 0.2 (totalSlides s)
      (initialTransform s + dragOffset (x - startX s) w)%Q.
Proof.
  intros Hd Hm Hx. unfold mousemove. cbv zeta.
  rewrite Hd, Hm. cbn [negb orb].
  change (currentX (set_currentX x s)) with x.
  change (startX (set_currentX x s)) with (startX s).
  apply Qgtb_lt in Hx. rewrite Hx. reflexivity.
Qed.

(** ** The axis decision of a touch session *)

Lemma touchend_active (s : App) :
  horizontalSession s = true ->
  touchend s
  = release Touch (currentX s - startX s)%Q (clock s - startTime s) s.
Proof.
  unfold horizontalSession. intros H.
  apply andb_true_iff in H. destruct H as [Hd Hh].
  unfold touchend. now rewrite Hd, Hh.
Qed.

Lemma mouseup_active (s : App) :
  isDragging s = true -> isMobile s = false ->
  mouseup s
  = release Mouse (currentX s - startX s)%Q (clock s - startTime s) s.
Proof.
  intros Hd Hm. unfold mouseup. now rewrite Hd, Hm.
Qed.

Lemma touchmove_sticky (ts : list touch) (w : positive) (s : App) :
  horizontalSession s = true -> horizontalSession (touchmove ts w s) = true.
Proof.
  unfold horizontalSession. intros H.
  apply andb_true_iff in H. destruct H as [Hd Hh].
  unfold touchmove. destruct ts as [|[x y] [|? ?]]; try now rewrite Hd, Hh.
  cbv zeta. simpl. rewrite Hd, Hh. simpl. rewrite Hd, Hh. simpl.
  now rewrite Hd, Hh.
Qed.

Lemma touchmoves_sticky (l : list (list touch * positive)) (s : App) :
  horizontalSession s = true -> horizontalSession (touchmoves l s) = true.
Proof.
  revert s. induction l as [|m l IH]; intros s H; simpl; trivial.
  apply IH. now apply touchmove_sticky.
Qed.

Lemma AxisClassifier_horizontal (dx dy : Q) :
  AxisClassifier dx dy = Horizontal
  <-> (Qgtb (Qabs dx) 10 || Qgtb (Qabs dy) 10)
      && (Qgtb (Qabs dx) (Qabs dy) && Qgtb (Qabs dx) 15) = true.
Proof.
  unfold AxisClassifier.
  generalize (Qabs dx) (Qabs dy). intros a b.
  destruct (Qgtb a 10) eqn:A;
    [apply Qgtb_lt in A | apply Qgtb_le in A];
    (destruct (Qgtb b 10) eqn:B;
     [apply Qgtb_lt in B | apply Qgtb_le in B]);
    (destruct (Qgtb a b) eqn:C;
     [apply Qgtb_lt in C | apply Qgtb_le in C]);
    (destruct (Qgtb a 15) eqn:D;
     [apply Qgtb_lt in D | apply Qgtb_le in D]);
    (destruct (Qle_bool a 10) eqn:A';
     [apply Qle_bool_iff in A' | ]);
    (destruct (Qle_bool b 10) eqn:B';
     [apply Qle_bool_iff in B' | ]);
    simpl; split; intros H; try discriminate H; try reflexivity;
    try lra;
    try (assert (A2 : Qle_bool a 10 = true) by (apply Qle_bool_iff; lra);
         congruence);
    try (assert (B2 : Qle_bool b 10 = true) by (apply Qle_bool_iff; lra);
         congruence).
Qed.

Lemma touchmove_flags (x y : Q) (w : positive) (s : App) :
  isDragging s = false -> isHorizontalSwipe s = false ->
  let dx := (x - startX s)%Q in
  let dy := (y - startY s)%Q in
  let h := (Qgtb (Qabs dx) 10 || Qgtb (Qabs dy) 10)
           && (Qgtb (Qabs dx) (Qabs dy) && Qgtb (Qabs dx) 15) in
  isDragging (touchmove [(x, y)] w s) = h
  /\ isHorizontalSwipe (touchmove [(x, y)] w s) = h.
Proof.
  intros Hd Hh. unfold touchmove. cbv zeta.
  cbn -[Qabs Qminus Qplus Qgtb resistanceTransform dragOffset].
  rewrite Hd, Hh.
  cbn -[Qabs Qminus Qplus Qgtb resistanceTransform dragOffset].
  destruct (Qgtb (Qabs (x - startX s)) 10
            || Qgtb (Qabs (y - startY s)) 10);
    cbn -[Qabs Qminus Qplus Qgtb resistanceTransform dragOffset].
  - destruct (Qgtb (Qabs (x - startX s)) (Qabs (y - startY s))
              && Qgtb (Qabs (x - startX s)) 15);
      cbn -[Qabs Qminus Qplus Qgtb resistanceTransform dragOffset];
      rewrite ?Hd, ?Hh; auto.
  - rewrite Hd, Hh. auto.
Qed.

(** C3, as the code has it.  A touch session that has become horizontal
    stays horizontal under every later move sample.  The listener keeps no
    record of a sample that failed the horizontal test: while the two flags
    are clear, a move sample makes the session horizontal exactly when the
    classifier calls that sample Horizontal, and otherwise leaves both flags
    clear, so the next sample is tested afresh. *)
Theorem horizontal_is_sticky (s : App) :
  (horizontalSession s = true ->
   forall l, horizontalSession (touchmoves l s) = true)
  /\ (isDragging s = false -> isHorizontalSwipe s = false ->
      forall x y w,
        let s' := touchmove [(x, y)] w s in
        (horizontalSession s' = true
         <-> AxisClassifier (x - startX s) (y - startY s) = Horizontal)
        /\ (AxisClassifier (x - startX s) (y - startY s) <> Horizontal ->
            isDragging s' = false /\ isHorizontalSwipe s' = false)).
Proof.
  split.
  - intros H l. now apply touchmoves_sticky.
  - intros Hd Hh x y w. cbv zeta.
    destruct (touchmove_flags x y w s Hd Hh) as [E1 E2].
    cbv zeta in E1, E2.
    rewrite AxisClassifier_horizontal.
    unfold horizontalSession. rewrite E1, E2.
    split.
    + rewrite andb_diag. reflexivity.
    + intros H. apply not_true_is_false in H. auto.
Qed.

Lemma horizontal_is_sticky_witness :
  let s := touchstart [(100 # 1, 100 # 1)] (releaseLock (boot 5 1024 0)) in
  let h := touchmove [(140 # 1, 125 # 1)] 300 s in
  horizontalSession h = true
  /\ horizontalSession (touchmoves [([(100 # 1, 190 # 1)], 300%positive)] h)
     = true.
Proof.
  intros s h.
  assert (Hh : horizontalSession h = true).
  { apply (proj2 (horizontal_is_sticky s) eq_refl eq_refl).
    vm_compute. reflexivity. }
  split; [exact Hh|].
  apply (proj1 (horizontal_is_sticky h) Hh).
Defined.

(** C3 as stated fails: in one session, a first sample (3, 25) is Vertical
    for the classifier and leaves the session not horizontal; the next
    sample (40, 25) makes the same session horizontal. *)
Lemma vertical_then_horizontal :
  let s0 := touchstart [(100 # 1, 100 # 1)] (releaseLock (boot 5 1024 0)) in
  let s1 := touchmove [(103 # 1, 125 # 1)] 300 s0 in
  let s2 := touchmove [(140 # 1, 125 # 1)] 300 s1 in
  AxisClassifier (103 - startX s0) (125 - startY s0) = Vertical
  /\ horizontalSession s1 = false
  /\ AxisClassifier (140 - startX s1) (125 - startY s1) = Horizontal
  /\ horizontalSession s2 = true.
Proof. vm_compute. auto. Qed.

(** ** Snap-back, cancellation and releases under the lock *)

Lemma updateSliderPosition_track (s : App) :
  trackPresent s = true ->
  updateSliderPosition s
  = set_timers (timers s ++ [clock s + 500])
      (set_transform (baseOffset s) (set_isAnimating true s)).
Proof. intros H. unfold updateSliderPosition. now rewrite H. Qed.

Lemma release_cancel (m : Modality) (dx : Q) (dt : Z) (s : App) :
  trackPresent s = true ->
  outcome (listenerDecision m dx dt) = Cancel ->
  let s' := release m dx dt s in
  currentSlide s' = currentSlide s
  /\ transform s' = baseOffset s
  /\ isAnimating s' = true
  /\ timers s' = timers s ++ [clock s + 500]
  /\ isDragging s' = false.
Proof.
  intros Ht Hc. cbv zeta.
  assert (E : release m dx dt s
              = endDrag m (updateSliderPosition (enableTransition s))).
  { destruct m; unfold release, touchRelease, mouseRelease, endDrag;
      cbv zeta; rewrite applyDecision_perform;
      unfold listenerDecision in Hc; rewrite Hc; reflexivity. }
  rewrite E, updateSliderPosition_track by exact Ht.
  destruct m; simpl; auto.
Qed.

(** C5, as the code has it.  A release that resolves to Cancel, by touch or
    by mouse, leaves the index as it is and moves the track back to the
    current slide, and, since it does so through [updateSliderPosition], it
    sets [isAnimating] and schedules its release 500 ms later. *)
Theorem snap_back_engages_lock (s : App) :
  trackPresent s = true ->
  let dx := (currentX s - startX s)%Q in
  let dt := clock s - startTime s in
  (horizontalSession s = true ->
   outcome (listenerDecision Touch dx dt) = Cancel ->
   currentSlide (touchend s) = currentSlide s
   /\ transform (touchend s) = baseOffset s
   /\ isAnimating (touchend s) = true
   /\ timers (touchend s) = timers s ++ [clock s + 500])
  /\ (isDragging s = true -> isMobile s = false ->
      outcome (listenerDecision Mouse dx dt) = Cancel ->
      currentSlide (mouseup s) = currentSlide s
      /\ transform (mouseup s) = baseOffset s
      /\ isAnimating (mouseup s) = true
      /\ timers (mouseup s) = timers s ++ [clock s + 500]).
Proof.
  intros Ht. cbv zeta. split.
  - intros Hs Hc. rewrite touchend_active by exact Hs.
    destruct (release_cancel Touch _ _ s Ht Hc) as (A & B & C & D & _).
    auto.
  - intros Hd Hm Hc. rewrite mouseup_active by assumption.
    destruct (release_cancel Mouse _ _ s Ht Hc) as (A & B & C & D & _).
    auto.
Qed.

Lemma snap_back_engages_lock_witness :
  currentSlide (touchend slowDrag) = currentSlide slowDrag
  /\ transform (touchend slowDrag) = baseOffset slowDrag
  /\ isAnimating (touchend slowDrag) = true
  /\ timers (touchend slowDrag) = timers slowDrag ++ [clock slowDrag + 500].
Proof.
  apply (proj1 (snap_back_engages_lock slowDrag eq_refl)).
  - vm_compute. reflexivity.
  - vm_compute. reflexivity.
Defined.

(** C5 as stated fails: the flag is clear before the release of
    [slowDrag], the release resolves to Cancel, and the flag is set after
    it. *)
Lemma snap_back_sets_isAnimating :
  horizontalSession slowDrag = true
  /\ isAnimating slowDrag = false
  /\ outcome (listenerDecision Touch (currentX slowDrag - startX slowDrag)
                (clock slowDrag - startTime slowDrag)) = Cancel
  /\ currentSlide (touchend slowDrag) = currentSlide slowDrag
  /\ isAnimating (touchend slowDrag) = true.
Proof. vm_compute. auto. Qed.

(** C7, as the code has it.  A mouse drag in progress on a window that is
    not mobile is resolved by mouseleave as a snap-back: the drag flag is
    cleared, the transition is switched on again, the track returns to the
    current slide and the index is unchanged.  touchcancel and window blur
    have no listener in the slider: they leave the state as it is. *)
Theorem mouseleave_snaps_back (s : App) :
  (isDragging s = true -> isMobile s = false -> trackPresent s = true ->
   isDragging (mouseleave s) = false
   /\ transitionOn (mouseleave s) = true
   /\ transform (mouseleave s) = baseOffset s
   /\ currentSlide (mouseleave s) = currentSlide s)
  /\ dispatch TouchCancel s = s
  /\ dispatch WindowBlur s = s.
Proof.
  split; [|split; reflexivity].
  intros Hd Hm Ht. unfold mouseleave. rewrite Hd, Hm. simpl.
  rewrite updateSliderPosition_track by exact Ht.
  simpl. auto.
Qed.

Lemma mouseleave_snaps_back_witness :
  isDragging (mouseleave mouseDrag) = false
  /\ transitionOn (mouseleave mouseDrag) = true
  /\ transform (mouseleave mouseDrag) = baseOffset mouseDrag
  /\ currentSlide (mouseleave mouseDrag) = currentSlide mouseDrag.
Proof.
  apply (proj1 (mouseleave_snaps_back mouseDrag)); reflexivity.
Defined.

(** C7 as stated fails for touchcancel and for window blur: the touch drag
    [touchDrag] is still a horizontal session after touchcancel, and the
    mouse drag [mouseDrag] is still dragging after window blur, each with
    the track left at the drag offset and the transition switched off. *)
Lemma touchcancel_blur_unhandled :
  let s := step (1020, TouchCancel) touchDrag in
  let b := step (1060, WindowBlur) mouseDrag in
  horizontalSession touchDrag = true
  /\ horizontalSession s = true
  /\ ~ (transform s == baseOffset s)%Q
  /\ transitionOn s = false
  /\ isDragging mouseDrag = true
  /\ isDragging b = true
  /\ ~ (transform b == baseOffset b)%Q
  /\ transitionOn b = false.
Proof.
  vm_compute. repeat split; try reflexivity; intros H; discriminate H.
Qed.

(** C9 (stale pointer position).  mousedown stores the new [startX] and
    leaves [currentX] as it was, so a mouseup that follows with no
    mousemove in between runs its release test on the old [currentX] minus
    the new [startX]; [currentX] is 0 before the first gesture.  Such a
    press and release without motion can change the slide: on the first of
    five slides, a press at x = 200 released 100 ms later moves to slide 1. *)
Theorem mousedown_keeps_currentX (s : App) (x : Q) (t1 t2 : Z) :
  isMobile s = false ->
  let s1 := step (t1, MouseDown x) s in
  (startX s1 = x /\ currentX s1 = currentX s
   /\ step (t2, MouseUp) s1
      = release Mouse (currentX s - x)%Q (t2 - t1) (set_clock t2 s1))
  /\ (forall n w now, currentX (boot n w now) = 0%Q)
  /\ (let s0 := releaseLock (boot 5 1024 0) in
      let s2 := run [(1000, MouseDown (200 # 1)); (1100, MouseUp)] s0 in
      (commitDistance Mouse < Qabs (currentX s0 - (200 # 1)))%Q
      /\ currentSlide s0 = 0 /\ currentSlide s2 = 1).
Proof.
  intros Hm. cbv zeta. split; [|split].
  - unfold step. simpl fst. simpl snd. unfold dispatch.
    unfold mousedown.
    change (isMobile (set_clock t1 s)) with (isMobile s). rewrite Hm.
    cbv zeta. split; [reflexivity | split; [reflexivity |]].
    rewrite mouseup_active; [reflexivity | reflexivity | exact Hm].
  - intros n w now. unfold boot, initPortfolioSlider. cbv zeta.
    destruct (totalSlides (set_totalSlides (Z.of_nat n)
                             (constructed w true now)) >? 0);
      reflexivity.
  - vm_compute. auto.
Qed.

Lemma mousedown_keeps_currentX_witness :
  let s := releaseLock (boot 5 1024 0) in
  let s1 := step (1000, MouseDown (200 # 1)) s in
  startX s1 = 200 # 1 /\ currentX s1 = currentX s
  /\ step (1100, MouseUp) s1
     = release Mouse (currentX s - (200 # 1))%Q (1100 - 1000)
         (set_clock 1100 s1).
Proof.
  intros s s1.
  apply (proj1 (mousedown_keeps_currentX s (200 # 1) 1000 1100 eq_refl)).
Defined.

(** C10 (commit under the lock).  When a horizontal touch drag is released
    with a committing test while [isAnimating] is set, [nextSlide] or
    [previousSlide] returns at once: the index, the flag and the pending
    callbacks are as before and [updateSliderPosition] is not run, so the
    track keeps the offset the last move sample gave it. *)
Theorem commit_under_lock (s : App) :
  horizontalSession s = true ->
  isAnimating s = true ->
  outcome (listenerDecision Touch (currentX s - startX s)%Q
             (clock s - startTime s)) <> Cancel ->
  (currentSlide (touchend s) = currentSlide s
   /\ transform (touchend s) = transform s
   /\ timers (touchend s) = timers s
   /\ isAnimating (touchend s) = true
   /\ horizontalSession (touchend s) = false)
  /\ (forall s0 x y w,
        horizontalSession s0 = true -> s = touchmove [(x, y)] w s0 ->
        transform (touchend s)
        = resistanceTransform 0.3 (totalSlides s0)
            (initialTransform s0 + dragOffset (x - startX s0) w)%Q).
Proof.
  intros Hs Ha Hc.
  assert (E : touchend s
              = set_isHorizontalSwipe false
                  (set_isDragging false (enableTransition s))).
  { rewrite touchend_active by exact Hs.
    unfold release, touchRelease. cbv zeta.
    rewrite applyDecision_perform.
    unfold listenerDecision in Hc.
    destruct (outcome (swipeDecision 50 0.3 20 (currentX s - startX s)
                         (clock s - startTime s)));
      try congruence; unfold perform, nextSlide, previousSlide;
      change (isAnimating (enableTransition s)) with (isAnimating s);
      rewrite Ha; reflexivity. }
  split.
  - rewrite E. simpl. auto.
  - intros s0 x y w Hs0 Hmove. rewrite E. simpl. subst s.
    now apply touchmove_shows.
Qed.

Lemma commit_under_lock_witness :
  (currentSlide (touchend earlyDrag) = currentSlide earlyDrag
   /\ transform (touchend earlyDrag) = transform earlyDrag
   /\ timers (touchend earlyDrag) = timers earlyDrag
   /\ isAnimating (touchend earlyDrag) = true
   /\ horizontalSession (touchend earlyDrag) = false)
  /\ (transform (touchend earlyDrag) == - 20)%Q
  /\ forall k : Z, ~ (transform (touchend earlyDrag) == inject_Z (- k * 100))%Q.
Proof.
  assert (H : outcome (listenerDecision Touch
                         (currentX earlyDrag - startX earlyDrag)%Q
                         (clock earlyDrag - startTime earlyDrag)) <> Cancel)
    by (vm_compute; discriminate).
  destruct (commit_under_lock earlyDrag eq_refl eq_refl H) as (A & _).
  split; [exact A | split].
  - vm_compute. reflexivity.
  - intros k.
    replace (transform (touchend earlyDrag)) with (-6000 # 300)%Q
      by (vm_compute; reflexivity).
    unfold Qeq, inject_Z. cbn [Qnum Qden]. lia.
Defined.

(** ** The lock over time *)

(** C8 (the code at the failing input).  On [staleTimerTrace], which
    respects time, the index changes at 1200 and again at 1450, 250 ms
    later, and the flag is clear from 1400 on, 200 ms after the change at
    1200: the callback scheduled by the snap-back at 900 clears the flag
    that the change at 1200 has set. *)
Theorem stale_timer_releases_lock :
  let s0 := boot 5 1024 0 in
  timely staleTimerTrace s0 = true
  /\ mutationTimes staleTimerTrace s0 = [600; 1200; 1450]
  /\ isAnimating (run (firstn 7 staleTimerTrace) s0) = true
  /\ timers (run (firstn 7 staleTimerTrace) s0) = [1400; 1700]
  /\ isAnimating (run (firstn 8 staleTimerTrace) s0) = false
  /\ currentSlide (run staleTimerTrace s0) = 3.
Proof. vm_compute. repeat split; reflexivity. Qed.

(** ** More on the slider: what events can and cannot change *)

Lemma updateSliderPosition_locks (s : App) :
  isAnimating s = true -> isAnimating (updateSliderPosition s) = true.
Proof.
  intros H. unfold updateSliderPosition.
  destruct (trackPresent s); simpl; trivial.
Qed.

Lemma perform_index (d : Decision) (s : App) :
  currentSlide (perform d s) = currentSlide s
  \/ (isAnimating s = false /\ totalSlides s <> 0).
Proof.
  destruct d; simpl.
  - unfold nextSlide. destruct (isAnimating s); simpl; auto.
    destruct (totalSlides s =? 0) eqn:E; auto.
    right. split; trivial. now apply Z.eqb_neq.
  - unfold previousSlide. destruct (isAnimating s); simpl; auto.
    destruct (totalSlides s =? 0) eqn:E; auto.
    right. split; trivial. now apply Z.eqb_neq.
  - left. apply updateSliderPosition_index.
Qed.

Lemma goToSlide_index (i : Z) (s : App) :
  currentSlide (goToSlide i s) = currentSlide s
  \/ (isAnimating s = false /\ totalSlides s <> 0).
Proof.
  unfold goToSlide. destruct (isAnimating s); simpl; auto.
  destruct (totalSlides s =? 0) eqn:E; simpl; auto.
  right. split; trivial. now apply Z.eqb_neq.
Qed.

Lemma perform_total (d : Decision) (s : App) :
  totalSlides (perform d s) = totalSlides s.
Proof.
  destruct d; simpl;
    auto using nextSlide_total, previousSlide_total,
      updateSliderPosition_total.
Qed.

Lemma perform_locked (d : Decision) (s : App) :
  isAnimating s = true -> isAnimating (perform d s) = true.
Proof.
  intros H. destruct d; simpl.
  - unfold nextSlide. now rewrite H.
  - unfold previousSlide. now rewrite H.
  - now apply updateSliderPosition_locks.
Qed.

Lemma touchmove_frame (ts : list touch) (w : positive) (s : App) :
  currentSlide (touchmove ts w s) = currentSlide s
  /\ totalSlides (touchmove ts w s) = totalSlides s
  /\ isAnimating (touchmove ts w s) = isAnimating s
  /\ timers (touchmove ts w s) = timers s.
Proof.
  unfold touchmove. destruct ts as [|[x y] [|? ?]]; auto.
  cbv zeta. split_ifs; auto.
Qed.

Lemma mousemove_frame (x : Q) (w : positive) (s : App) :
  currentSlide (mousemove x w s) = currentSlide s
  /\ totalSlides (mousemove x w s) = totalSlides s
  /\ isAnimating (mousemove x w s) = isAnimating s
  /\ timers (mousemove x w s) = timers s.
Proof.
  unfold mousemove. cbv zeta. split_ifs; auto.
Qed.

Lemma touchend_unfold (s : App) :
  touchend s = set_isHorizontalSwipe false (set_isDragging false s)
  \/ exists d,
       touchend s
       = set_isHorizontalSwipe false
           (set_isDragging false (perform d (enableTransition s))).
Proof.
  unfold touchend, touchRelease.
  destruct (negb (isDragging s) || negb (isHorizontalSwipe s)); auto.
  right. cbv zeta. rewrite applyDecision_perform. eauto.
Qed.

Lemma mouseup_unfold (s : App) :
  mouseup s = s
  \/ exists d,
       mouseup s = set_isDragging false (perform d (enableTransition s)).
Proof.
  unfold mouseup, mouseRelease.
  destruct (negb (isDragging s) || isMobile s); auto.
  right. cbv zeta. rewrite applyDecision_perform. eauto.
Qed.

Lemma dispatch_total (e : Event) (s : App) :
  totalSlides (dispatch e s) = totalSlides s.
Proof.
  destruct e; simpl;
    auto using nextSlide_total, previousSlide_total, goToSlide_total.
  - unfold touchstart. destruct touches as [|[x y] [|? ?]]; reflexivity.
  - apply touchmove_frame.
  - destruct (touchend_unfold s) as [-> | [d ->]]; trivial.
    simpl. now rewrite perform_total.
  - unfold mousedown. destruct (isMobile s); reflexivity.
  - apply mousemove_frame.
  - destruct (mouseup_unfold s) as [-> | [d ->]]; trivial.
    simpl. now rewrite perform_total.
  - unfold mouseleave. destruct (isDragging s && negb (isMobile s)); trivial.
    simpl. now rewrite updateSliderPosition_total.
  - destruct k; simpl;
      auto using nextSlide_total, previousSlide_total, goToSlide_total.
  - destruct (timers s); reflexivity.
Qed.

Lemma dispatch_index (e : Event) (s : App) :
  currentSlide (dispatch e s) = currentSlide s
  \/ (isAnimating s = false /\ totalSlides s <> 0).
Proof.
  destruct e; simpl; auto.
  - left. unfold touchstart.
    destruct touches as [|[x y] [|? ?]]; reflexivity.
  - left. apply touchmove_frame.
  - destruct (touchend_unfold s) as [-> | [d ->]]; auto.
    simpl. apply (perform_index d (enableTransition s)).
  - left. unfold mousedown. destruct (isMobile s); reflexivity.
  - left. apply mousemove_frame.
  - destruct (mouseup_unfold s) as [-> | [d ->]]; auto.
    simpl. apply (perform_index d (enableTransition s)).
  - left. unfold mouseleave.
    destruct (isDragging s && negb (isMobile s)); trivial.
    simpl. now rewrite updateSliderPosition_index.
  - destruct k; simpl; auto using goToSlide_index.
    + apply (perform_index Retreat s).
    + apply (perform_index Advance s).
  - apply (perform_index Retreat s).
  - apply (perform_index Advance s).
  - apply goToSlide_index.
  - left. destruct (timers s); reflexivity.
Qed.

Lemma dispatch_locked (e : Event) (s : App) :
  isAnimating s = true -> isTimerFire e = false ->
  isAnimating (dispatch e s) = true.
Proof.
  intros H He. destruct e; simpl; try discriminate He; trivial.
  - unfold touchstart. destruct touches as [|[x y] [|? ?]]; trivial.
  - destruct (touchmove_frame touches offsetWidth s) as (_ & _ & -> & _).
    trivial.
  - destruct (touchend_unfold s) as [-> | [d ->]]; trivial.
    simpl. now apply perform_locked.
  - unfold mousedown. destruct (isMobile s); trivial.
  - destruct (mousemove_frame clientX offsetWidth s) as (_ & _ & -> & _).
    trivial.
  - destruct (mouseup_unfold s) as [-> | [d ->]]; trivial.
    simpl. now apply perform_locked.
  - unfold mouseleave. destruct (isDragging s && negb (isMobile s)); trivial.
    simpl. now apply updateSliderPosition_locks.
  - destruct k; simpl; trivial.
    + now apply (perform_locked Retreat).
    + now apply (perform_locked Advance).
    + unfold goToSlide. now rewrite H.
    + unfold goToSlide. now rewrite H.
  - now apply (perform_locked Retreat).
  - now apply (perform_locked Advance).
  - unfold goToSlide. now rewrite H.
Qed.

(** X1 (no slides).  When the page has no slide, no sequence of events of
    any kind changes the index or the slide count. *)
Theorem zero_slides_inert (tr : list stamped) (s : App) :
  totalSlides s = 0 ->
  currentSlide (run tr s) = currentSlide s /\ totalSlides (run tr s) = 0.
Proof.
  revert s. induction tr as [|[t e] tr IH]; intros s H0; simpl; auto.
  assert (Ht : totalSlides (step (t, e) s) = 0).
  { unfold step. simpl. now rewrite dispatch_total. }
  destruct (IH _ Ht) as [Hc Hn]. split; trivial.
  rewrite Hc. unfold step. simpl.
  destruct (dispatch_index e (set_clock t s)) as [E | [_ E]].
  - exact E.
  - exfalso. apply E. exact H0.
Qed.

Lemma zero_slides_inert_witness :
  let s := constructed 1024 true 0 in
  let tr := [(10, ClickNext); (20, KeyDown End_); (30, ClickIndicator 2);
             (40, MouseDown (300 # 1)); (50, MouseUp)] in
  currentSlide (run tr s) = currentSlide s /\ totalSlides (run tr s) = 0.
Proof.
  intros s tr. apply (zero_slides_inert tr s). reflexivity.
Defined.

(** X2 (requests under the lock).  While [isAnimating] is set, no sequence
    of events that contains no run of a release callback changes the index,
    and the flag is still set after it: requests are dropped, not queued. *)
Theorem locked_requests_dropped (tr : list stamped) (s : App) :
  isAnimating s = true ->
  forallb (fun te => negb (isTimerFire (snd te))) tr = true ->
  currentSlide (run tr s) = currentSlide s /\ isAnimating (run tr s) = true.
Proof.
  revert s. induction tr as [|[t e] tr IH]; intros s Ha Hn; simpl; auto.
  simpl in Hn. apply andb_true_iff in Hn. destruct Hn as [He Hn].
  apply negb_true_iff in He.
  assert (Ha' : isAnimating (step (t, e) s) = true).
  { unfold step. simpl. now apply dispatch_locked. }
  destruct (IH _ Ha' Hn) as [Hc Hl]. split; trivial.
  rewrite Hc. unfold step. simpl.
  destruct (dispatch_index e (set_clock t s)) as [E | [E _]].
  - exact E.
  - simpl in E. congruence.
Qed.

Lemma locked_requests_dropped_witness :
  let s := boot 5 1024 0 in
  let tr := [(100, ClickNext); (200, KeyDown End_); (300, ClickIndicator 2);
             (350, MouseDown (300 # 1)); (400, MouseUp)] in
  currentSlide (run tr s) = currentSlide s /\ isAnimating (run tr s) = true.
Proof.
  intros s tr. apply (locked_requests_dropped tr s); reflexivity.
Defined.

Lemma previousSlide_index (s : App) :
  isAnimating s = false -> totalSlides s <> 0 ->
  currentSlide (previousSlide s)
  = if currentSlide s =? 0 then totalSlides s - 1 else currentSlide s - 1.
Proof.
  intros Ha Hn. unfold previousSlide. rewrite Ha.
  apply Z.eqb_neq in Hn. rewrite Hn. simpl.
  now rewrite updateSliderPosition_index.
Qed.

(** X3 (next and previous are inverse).  On a valid index, a call of
    [previousSlide] after a call of [nextSlide], each made with the flag
    clear, returns to the index it started from, and so does [nextSlide]
    after [previousSlide]. *)
Theorem next_previous_inverse (s : App) :
  validIndex s -> isAnimating s = false ->
  currentSlide (previousSlide (releaseLock (nextSlide s))) = currentSlide s
  /\ currentSlide (nextSlide (releaseLock (previousSlide s)))
     = currentSlide s.
Proof.
  unfold validIndex. intros Hv Ha. split.
  - rewrite previousSlide_index; simpl;
      rewrite ?nextSlide_total; try reflexivity; try lia.
    rewrite nextSlide_index by (trivial; lia).
    rewrite Z.rem_mod_nonneg by lia.
    destruct (Z.eq_dec (currentSlide s + 1) (totalSlides s)) as [E | E].
    + rewrite E, Z.mod_same by lia. simpl. lia.
    + rewrite Z.mod_small by lia.
      destruct (currentSlide s + 1 =? 0) eqn:F;
        [apply Z.eqb_eq in F|]; lia.
  - rewrite nextSlide_index; simpl;
      rewrite ?previousSlide_total; try reflexivity; try lia.
    rewrite previousSlide_index by (trivial; lia).
    destruct (currentSlide s =? 0) eqn:F.
    + apply Z.eqb_eq in F.
      replace (totalSlides s - 1 + 1) with (totalSlides s) by lia.
      rewrite Z.rem_same by lia. lia.
    + apply Z.eqb_neq in F.
      replace (currentSlide s - 1 + 1) with (currentSlide s) by lia.
      rewrite Z.rem_mod_nonneg by lia. apply Z.mod_small. lia.
Qed.

Lemma next_previous_inverse_witness :
  let s := releaseLock (goToSlide 4 (releaseLock (boot 5 1024 0))) in
  currentSlide s = 4
  /\ currentSlide (previousSlide (releaseLock (nextSlide s))) = currentSlide s
  /\ currentSlide (nextSlide (releaseLock (previousSlide s)))
     = currentSlide s.
Proof.
  intros s. split; [reflexivity|].
  apply (next_previous_inverse s).
  - vm_compute. split; [discriminate | reflexivity].
  - reflexivity.
Defined.

(** X4 (release with the lock clear).  With the track present, slides on
    the page and the flag clear, every release of a drag, whatever its
    displacement and duration, leaves the track at the base offset of the
    index it leaves, with the flag set and one more release callback
    pending, due 500 ms later. *)
Theorem release_rests_on_a_slide (m : Modality) (dx : Q) (dt : Z) (s : App) :
  trackPresent s = true -> isAnimating s = false -> totalSlides s <> 0 ->
  let s' := release m dx dt s in
  transform s' = baseOffset s'
  /\ isAnimating s' = true
  /\ timers s' = timers s ++ [clock s + 500].
Proof.
  intros Ht Ha Hn. cbv zeta.
  assert (E : exists v,
             release m dx dt s
             = endDrag m (updateSliderPosition
                            (set_currentSlide v (enableTransition s)))).
  { apply Z.eqb_neq in Hn.
    destruct m; unfold release, touchRelease, mouseRelease, endDrag;
      cbv zeta; rewrite applyDecision_perform;
      match goal with
      | |- context [perform ?d _] => destruct d
      end; unfold perform, nextSlide, previousSlide;
      change (isAnimating (enableTransition s)) with (isAnimating s);
      change (totalSlides (enableTransition s)) with (totalSlides s);
      rewrite ?Ha, ?Hn; simpl orb; cbv iota; eauto;
      exists (currentSlide s); destruct s; reflexivity. }
  destruct E as [v E]. rewrite E.
  rewrite updateSliderPosition_track by exact Ht.
  destruct m; simpl; auto.
Qed.

Lemma release_rests_on_a_slide_witness :
  let s' := release Touch (-60 # 1) 200 (releaseLock (boot 5 1024 0)) in
  transform s' = baseOffset s'
  /\ isAnimating s' = true
  /\ timers s' = timers (releaseLock (boot 5 1024 0)) ++ [0 + 500].
Proof.
  apply (release_rests_on_a_slide Touch (-60 # 1) 200
           (releaseLock (boot 5 1024 0))); try reflexivity.
  vm_compute. discriminate.
Defined.

Lemma outcome_commits (d : bool * Z) : outcome d <> Cancel <-> fst d = true.
Proof.
  destruct d as [[|] dir]; unfold outcome; simpl.
  - destruct (dir >? 0); split; intros; [reflexivity | discriminate
                                        | reflexivity | discriminate].
  - split; intros H; [now contradiction H | discriminate H].
Qed.

Lemma swipeDecision_commit_flag (th mv md dx : Q) (dt : Z) :
  fst (swipeDecision th mv md dx dt)
  = Qgtb (Qabs dx) th
    || (js_gt (js_div (Qabs dx) dt) mv && Qgtb (Qabs dx) md).
Proof.
  unfold swipeDecision. cbv zeta.
  destruct (Qgtb (Qabs dx) th); simpl; trivial.
  destruct (js_gt (js_div (Qabs dx) dt) mv && Qgtb (Qabs dx) md); trivial.
Qed.

Lemma swipeDecision_zero_time (th mv md dx : Q) :
  (0 <= md)%Q -> (md <= th)%Q ->
  fst (swipeDecision th mv md dx 0) = Qgtb (Qabs dx) md.
Proof.
  intros H0 H1. rewrite swipeDecision_commit_flag.
  unfold js_div. simpl Z.eqb. cbv iota.
  generalize (Qabs dx). intros a.
  destruct (Qgtb a th) eqn:A;
    [apply Qgtb_lt in A | apply Qgtb_le in A];
    (destruct (Qgtb a 0) eqn:B;
     [apply Qgtb_lt in B | apply Qgtb_le in B]);
    (destruct (Qgtb a md) eqn:C;
     [apply Qgtb_lt in C | apply Qgtb_le in C]);
    simpl; trivial; lra.
Qed.

Lemma swipeDecision_clock_back (th mv md dx : Q) (dt : Z) :
  dt < 0 -> (0 < mv)%Q ->
  fst (swipeDecision th mv md dx dt) = Qgtb (Qabs dx) th.
Proof.
  intros Hdt Hmv. rewrite swipeDecision_commit_flag.
  assert (Hv : js_gt (js_div (Qabs dx) dt) mv = false).
  { unfold js_div.
    destruct (dt =? 0) eqn:E; [apply Z.eqb_eq in E; lia|].
    simpl. apply Qgtb_le.
    apply Qle_trans with 0%Q; [|apply Qlt_le_weak; exact Hmv].
    pose proof (Qabs_nonneg dx) as Ha.
    assert (Hi : (/ inject_Z dt < 0)%Q).
    { destruct dt as [|p|p]; try lia. reflexivity. }
    unfold Qdiv. generalize dependent (/ inject_Z dt)%Q.
    generalize dependent (Qabs dx). intros a Ha i Hi. nra. }
  rewrite Hv. simpl. apply orb_false_r.
Qed.

(** X5 (release with no elapsed time).  When [Date.now()] has not advanced
    between the start of a drag and its release, the velocity is Infinity
    and the release commits exactly when the displacement exceeds the
    minimum displacement (20 touch, 30 mouse); when the clock has gone
    back, the velocity is not positive and the release commits exactly when
    the displacement exceeds the commit distance (50 touch, 80 mouse). *)
Theorem release_without_elapsed_time (m : Modality) (dx : Q) :
  (outcome (listenerDecision m dx 0) <> Cancel
   <-> (minDisplacement m < Qabs dx)%Q)
  /\ (forall dt, dt < 0 ->
        (outcome (listenerDecision m dx dt) <> Cancel
         <-> (commitDistance m < Qabs dx)%Q)).
Proof.
  split.
  - rewrite outcome_commits, <- Qgtb_lt.
    destruct m; unfold listenerDecision, minDisplacement;
      rewrite swipeDecision_zero_time; try reflexivity; discriminate.
  - intros dt Hdt. rewrite outcome_commits, <- Qgtb_lt.
    destruct m; unfold listenerDecision, commitDistance;
      rewrite swipeDecision_clock_back; try reflexivity; exact Hdt.
Qed.

Lemma release_without_elapsed_time_witness :
  outcome (listenerDecision Touch (-25 # 1) 0) <> Cancel
  /\ (outcome (listenerDecision Touch (-25 # 1) (-5)) <> Cancel
      <-> (commitDistance Touch < Qabs (-25 # 1))%Q).
Proof.
  split.
  - apply (proj1 (release_without_elapsed_time Touch (-25 # 1))).
    reflexivity.
  - apply (proj2 (release_without_elapsed_time Touch (-25 # 1))).
    reflexivity.
Defined.

Lemma touchmove_inert (p : touch) (ts : list touch) (w : positive) (s : App) :
  isDragging s = false -> isHorizontalSwipe s = false ->
  startX s = fst p -> startY s = snd p ->
  inertSample p ts ->
  let s' := touchmove ts w s in
  (isDragging s' = false /\ isHorizontalSwipe s' = false
   /\ startX s' = fst p /\ startY s' = snd p)
  /\ currentSlide s' = currentSlide s /\ transform s' = transform s
  /\ isAnimating s' = isAnimating s /\ timers s' = timers s
  /\ transitionOn s' = transitionOn s.
Proof.
  intros Hd Hh Hx Hy Hi. cbv zeta.
  destruct ts as [|[x y] [|? ?]]; try (simpl; tauto).
  unfold inertSample in Hi. rewrite <- Hx, <- Hy in Hi.
  rewrite AxisClassifier_horizontal in Hi.
  apply not_true_is_false in Hi.
  unfold touchmove. cbv zeta.
  cbn -[Qabs Qminus Qplus Qgtb resistanceTransform dragOffset].
  rewrite Hd, Hh.
  cbn -[Qabs Qminus Qplus Qgtb resistanceTransform dragOffset].
  destruct (Qgtb (Qabs (x - startX s)) 10
            || Qgtb (Qabs (y - startY s)) 10);
    cbn -[Qabs Qminus Qplus Qgtb resistanceTransform dragOffset] in *.
  - rewrite Hi.
    cbn -[Qabs Qminus Qplus Qgtb resistanceTransform dragOffset].
    rewrite Hd. cbn. tauto.
  - rewrite Hd, Hh. cbn. tauto.
Qed.

(** X6 (a session that never turns horizontal).  A touch session whose
    move samples are never classified Horizontal, ended by touchend, leaves
    the index, the track offset, the transition, the flag and the pending
    callbacks exactly as they were before the touch began. *)
Theorem vertical_session_inert (s : App) (p : touch) (t0 t1 : Z)
  (moves : list (Z * list touch * positive)) :
  Forall (fun m => inertSample p (snd (fst m))) moves ->
  let s' := run ((t0, TouchStart [p]) :: moveEvents moves
                 ++ [(t1, TouchEnd)]) s in
  currentSlide s' = currentSlide s /\ transform s' = transform s
  /\ isAnimating s' = isAnimating s /\ timers s' = timers s
  /\ transitionOn s' = transitionOn s /\ horizontalSession s' = false.
Proof.
  intros Hm. cbv zeta.
  change (run ((t0, TouchStart [p]) :: moveEvents moves ++ [(t1, TouchEnd)]) s)
    with (run (moveEvents moves ++ [(t1, TouchEnd)])
            (step (t0, TouchStart [p]) s)).
  assert (J : (isDragging (step (t0, TouchStart [p]) s) = false
               /\ isHorizontalSwipe (step (t0, TouchStart [p]) s) = false
               /\ startX (step (t0, TouchStart [p]) s) = fst p
               /\ startY (step (t0, TouchStart [p]) s) = snd p)
              /\ currentSlide (step (t0, TouchStart [p]) s) = currentSlide s
              /\ transform (step (t0, TouchStart [p]) s) = transform s
              /\ isAnimating (step (t0, TouchStart [p]) s) = isAnimating s
              /\ timers (step (t0, TouchStart [p]) s) = timers s
              /\ transitionOn (step (t0, TouchStart [p]) s) = transitionOn s).
  { destruct p as [x y]. unfold step. simpl. tauto. }
  generalize dependent (step (t0, TouchStart [p]) s). clear t0.
  induction Hm as [|[[t ts] w] moves Hi Hm IH]; intros s1 J.
  - simpl. unfold step. simpl.
    destruct J as ((Hd & Hh & _ & _) & Hc & Ht & Ha & Hq & Hn).
    unfold touchend.
    change (isDragging (set_clock t1 s1)) with (isDragging s1).
    rewrite Hd. simpl. unfold horizontalSession. simpl. tauto.
  - simpl. apply IH. clear IH.
    destruct J as ((Hd & Hh & Hx & Hy) & Hc & Ht & Ha & Hq & Hn).
    unfold step. simpl fst. simpl snd. unfold dispatch.
    simpl in Hi.
    destruct (touchmove_inert p ts w (set_clock t s1) Hd Hh Hx Hy Hi)
      as (J1 & Hc' & Ht' & Ha' & Hq' & Hn').
    split; [exact J1|].
    rewrite Hc', Ht', Ha', Hq', Hn'. simpl. tauto.
Qed.

Lemma vertical_session_inert_witness :
  let s := releaseLock (boot 5 1024 0) in
  let s' := run ((1000, TouchStart [(100 # 1, 100 # 1)])
                 :: moveEvents
                      [(1010, [(103 # 1, 125 # 1)], 300%positive);
                       (1020, [(105 # 1, 190 # 1)], 300%positive)]
                 ++ [(1100, TouchEnd)]) s in
  currentSlide s' = currentSlide s /\ transform s' = transform s
  /\ isAnimating s' = isAnimating s /\ timers s' = timers s
  /\ transitionOn s' = transitionOn s /\ horizontalSession s' = false.
Proof.
  intros s.
  apply (vertical_session_inert s (100 # 1, 100 # 1) 1000 1100).
  repeat constructor; simpl; vm_compute; discriminate.
Defined.

Lemma set_clock_twice (a b : Z) (s : App) :
  set_clock a (set_clock b s) = set_clock a s.
Proof. reflexivity. Qed.

Lemma set_clock_same (s : App) : set_clock (clock s) s = s.
Proof. destruct s; reflexivity. Qed.

(** X7 (mouse on a narrow window).  On a window at most 767 pixels wide
    ([isMobile]), no sequence of mousedown, mousemove, mouseup and
    mouseleave events changes anything in the slider: the state after it
    is the state before it, the clock apart. *)
Theorem mobile_ignores_mouse (tr : list stamped) (s : App) :
  isMobile s = true ->
  forallb (fun te => mouseEvent (snd te)) tr = true ->
  run tr s = set_clock (clock (run tr s)) s.
Proof.
  revert s. induction tr as [|[t e] tr IH]; intros s Hm Ht.
  - simpl. symmetry. apply set_clock_same.
  - simpl in Ht. apply andb_true_iff in Ht. destruct Ht as [He Ht].
    assert (E : step (t, e) s = set_clock t s).
    { unfold step. simpl fst. simpl snd.
      destruct e; try discriminate He; simpl;
        unfold mousedown, mousemove, mouseup, mouseleave;
        change (isMobile (set_clock t s)) with (isMobile s);
        rewrite Hm; rewrite ?orb_true_r, ?andb_false_r; reflexivity. }
    simpl. rewrite E.
    rewrite (IH (set_clock t s)) by (trivial; exact Ht).
    now rewrite !set_clock_twice.
Qed.

Lemma mobile_ignores_mouse_witness :
  let s := releaseLock (boot 5 400 0) in
  let tr := [(1000, MouseDown (200 # 1)); (1050, MouseMove (20 # 1) 300);
             (1100, MouseUp); (1200, MouseLeave)] in
  run tr s = set_clock (clock (run tr s)) s.
Proof.
  intros s tr. apply (mobile_ignores_mouse tr s); reflexivity.
Defined.

Lemma nav_effect (s s' : App) :
  trackPresent s = true ->
  s' = s
  \/ (isAnimating s = false
      /\ exists v, s' = updateSliderPosition (set_currentSlide v s)) ->
  trackPresent s' = true /\ clock s' = clock s
  /\ ((currentSlide s' = currentSlide s /\ isAnimating s' = isAnimating s
       /\ timers s' = timers s)
      \/ (isAnimating s = false /\ isAnimating s' = true
          /\ timers s' = timers s ++ [clock s + 500])).
Proof.
  intros Ht [-> | (Ha & v & ->)].
  - intuition auto.
  - rewrite updateSliderPosition_track by exact Ht. simpl. intuition auto.
Qed.

Lemma nextSlide_shape (s : App) :
  nextSlide s = s
  \/ (isAnimating s = false
      /\ exists v, nextSlide s = updateSliderPosition (set_currentSlide v s)).
Proof.
  unfold nextSlide. destruct (isAnimating s); simpl; auto.
  destruct (totalSlides s =? 0); eauto.
Qed.

Lemma previousSlide_shape (s : App) :
  previousSlide s = s
  \/ (isAnimating s = false
      /\ exists v,
           previousSlide s = updateSliderPosition (set_currentSlide v s)).
Proof.
  unfold previousSlide. destruct (isAnimating s); simpl; auto.
  destruct (totalSlides s =? 0); eauto.
Qed.

Lemma goToSlide_shape (i : Z) (s : App) :
  goToSlide i s = s
  \/ (isAnimating s = false
      /\ exists v,
           goToSlide i s = updateSliderPosition (set_currentSlide v s)).
Proof.
  unfold goToSlide. destruct (isAnimating s); simpl; auto.
  destruct ((totalSlides s =? 0) || (i =? currentSlide s)); eauto.
Qed.

Lemma discrete_effect (e : Event) (s : App) :
  discrete e = true -> isTimerFire e = false -> trackPresent s = true ->
  trackPresent (dispatch e s) = true /\ clock (dispatch e s) = clock s
  /\ ((currentSlide (dispatch e s) = currentSlide s
       /\ isAnimating (dispatch e s) = isAnimating s
       /\ timers (dispatch e s) = timers s)
      \/ (isAnimating s = false /\ isAnimating (dispatch e s) = true
          /\ timers (dispatch e s) = timers s ++ [clock s + 500])).
Proof.
  intros Hd Hf Ht.
  destruct e; try discriminate Hd; try discriminate Hf; simpl.
  - destruct k; simpl; apply nav_effect;
      auto using nextSlide_shape, previousSlide_shape, goToSlide_shape.
  - apply nav_effect; auto using previousSlide_shape.
  - apply nav_effect; auto using nextSlide_shape.
  - apply nav_effect; auto using goToSlide_shape.
  - intuition auto.
Qed.

Lemma spaced_cons (t : Z) (l : list Z) :
  Forall (fun t' => t + 500 <= t') l -> spaced l -> spaced (t :: l).
Proof.
  intros Hf Hs. destruct l as [|b l]; simpl; trivial.
  split; [|exact Hs]. now inversion Hf.
Qed.

Lemma discrete_spaced_gen (tr : list stamped) :
  forall s,
    trackPresent s = true -> lockConsistent s ->
    forallb (fun te => discrete (snd te)) tr = true ->
    timely tr s = true ->
    Forall (fun t' => clock s <= t' /\ Forall (fun d => d <= t') (timers s))
      (mutationTimes tr s)
    /\ spaced (mutationTimes tr s).
Proof.
  induction tr as [|[t e] tr IH]; intros s Ht Hl Hd Hy.
  - simpl. auto.
  - simpl in Hd. apply andb_true_iff in Hd. destruct Hd as [He Hd].
    cbn [timely fst snd] in Hy.
    apply andb_true_iff in Hy. destruct Hy as [Hy Hy'].
    apply andb_true_iff in Hy. destruct Hy as [Hc Hev].
    apply Z.leb_le in Hc.
    cbn [mutationTimes fst].
    destruct (isTimerFire e) eqn:Hf.
    + (* a release callback runs *)
      destruct e; try discriminate Hf.
      destruct (timers s) as [|due rest] eqn:Hq; [discriminate Hev|].
      apply Z.eqb_eq in Hev. subst due.
      assert (Hrest : rest = [] /\ isAnimating s = true).
      { destruct Hl as [[_ Hn] | [Ha [d Hn]]]; rewrite Hq in Hn.
        - discriminate Hn.
        - inversion Hn. auto. }
      destruct Hrest as [-> Ha].
      assert (Es : step (t, TimerFire) s
                   = releaseLock (set_timers [] (set_clock t s))).
      { unfold step. simpl. now rewrite Hq. }
      rewrite Es in *.
      change (currentSlide (releaseLock (set_timers [] (set_clock t s))))
        with (currentSlide s).
      rewrite Z.eqb_refl.
      destruct (IH (releaseLock (set_timers [] (set_clock t s)))) as [F S];
        trivial.
      { left. auto. }
      split; [|exact S].
      eapply Forall_impl; [|exact F].
      cbn. intros a [Ha' _]. split; [lia|].
      repeat constructor. exact Ha'.
    + (* a button, an indicator, a key or a resize *)
      assert (Hs : step (t, e) s = dispatch e (set_clock t s))
        by reflexivity.
      destruct (discrete_effect e (set_clock t s) He Hf Ht)
        as (Ht' & Hk & [(Hi & Ha & Hq) | (Ha & Ha' & Hq)]);
        rewrite <- Hs in *; cbn in Hk, Ha, Hq.
      * cbn in Hi. rewrite Hi, Z.eqb_refl.
        destruct (IH (step (t, e) s)) as [F S]; trivial.
        { unfold lockConsistent. rewrite Ha, Hq. exact Hl. }
        split; [|exact S].
        eapply Forall_impl; [|exact F].
        cbn. intros a [Hx Hy]. rewrite Hk in Hx. rewrite Hq in Hy.
        split; [lia | exact Hy].
      * assert (Hn : timers s = []).
        { destruct Hl as [[_ Hn] | [Hb _]]; [exact Hn | congruence]. }
        rewrite Hn in Hq. cbn in Hq.
        destruct (IH (step (t, e) s)) as [F S]; trivial.
        { right. split; eauto. }
        rewrite Hk, Hq in F.
        assert (F' : Forall (fun t' => t + 500 <= t')
                       (mutationTimes tr (step (t, e) s))).
        { eapply Forall_impl; [|exact F]. cbn. intros a [_ Hy].
          now inversion Hy. }
        destruct (currentSlide (step (t, e) s) =? currentSlide s).
        -- split; [|exact S].
           eapply Forall_impl; [|exact F'].
           cbn. intros a Hx. rewrite Hn. split; [lia | constructor].
        -- split.
           ++ constructor.
              ** rewrite Hn. split; [lia | constructor].
              ** eapply Forall_impl; [|exact F'].
                 cbn. intros a Hx. rewrite Hn. split; [lia | constructor].
           ++ now apply spaced_cons.
Qed.

(** X8 (the lock without gestures).  With the track present and the flag
    and the pending callbacks in agreement, in every sequence of button,
    indicator, keyboard, resize and timer events that respects time, any
    two changes of the index are at least 500 ms apart. *)
Theorem discrete_navigation_spaced (tr : list stamped) (s : App) :
  trackPresent s = true -> lockConsistent s ->
  forallb (fun te => discrete (snd te)) tr = true ->
  timely tr s = true ->
  spaced (mutationTimes tr s).
Proof.
  intros Ht Hl Hd Hy. now apply discrete_spaced_gen.
Qed.

Lemma discrete_navigation_spaced_witness :
  let tr := [(100, ClickNext); (500, TimerFire); (600, ClickNext);
             (700, KeyDown ArrowLeft); (1100, TimerFire);
             (1100, KeyDown End_); (1600, TimerFire);
             (1700, ClickIndicator 2)] in
  mutationTimes tr (boot 5 1024 0) = [600; 1100; 1700]
  /\ spaced (mutationTimes tr (boot 5 1024 0)).
Proof.
  intros tr. split; [reflexivity|].
  apply (discrete_navigation_spaced tr (boot 5 1024 0)); try reflexivity.
  right. split; [reflexivity | exists 500; reflexivity].
Defined.

(** ** Smooth scrolling *)

Lemma Qltb_compat (a a' b b' : Q) :
  (a == a')%Q -> (b == b')%Q -> Qltb a b = Qltb a' b'.
Proof.
  intros Ha Hb.
  destruct (Qltb a b) eqn:E, (Qltb a' b') eqn:F; trivial.
  - apply Qltb_lt in E. apply Qltb_ge in F. rewrite Ha, Hb in E. lra.
  - apply Qltb_ge in E. apply Qltb_lt in F. rewrite Ha, Hb in E. lra.
Qed.

Lemma easeInOutQuad_first (t b c d : Q) :
  (t / (d / 2) < 1)%Q ->
  (easeInOutQuad t b c d
   == c / 2 * (t / (d / 2)) * (t / (d / 2)) + b)%Q.
Proof.
  intros H. unfold easeInOutQuad. cbv zeta.
  apply Qltb_lt in H. rewrite H. reflexivity.
Qed.

Lemma easeInOutQuad_second (t b c d : Q) :
  (1 <= t / (d / 2))%Q ->
  (easeInOutQuad t b c d
   == - c / 2 * ((t / (d / 2) - 1) * (t / (d / 2) - 1 - 2) - 1) + b)%Q.
Proof.
  intros H. unfold easeInOutQuad. cbv zeta.
  apply Qltb_ge in H. rewrite H. reflexivity.
Qed.

Lemma easeInOutQuad_compat (t t' b c d : Q) :
  (t == t')%Q -> (easeInOutQuad t b c d == easeInOutQuad t' b c d)%Q.
Proof.
  intros H.
  assert (E : (t / (d / 2) == t' / (d / 2))%Q) by now rewrite H.
  destruct (Qlt_le_dec (t / (d / 2)) 1) as [L | L].
  - rewrite easeInOutQuad_first by exact L.
    rewrite E in L. rewrite easeInOutQuad_first by exact L.
    now rewrite E.
  - rewrite easeInOutQuad_second by exact L.
    rewrite E in L. rewrite easeInOutQuad_second by exact L.
    now rewrite E.
Qed.

Lemma ease_ratio (t d : Q) :
  ~ (d == 0)%Q -> (t / (d / 2) * d == 2 * t)%Q.
Proof. intros H. field. exact H. Qed.

(** X9 (easing: ends, middle, symmetry).  For a non-zero duration [d],
    [easeInOutQuad] starts at [b], ends at [b + c], is half way at half
    time, and is symmetric about the middle: the values at [t] and at
    [d - t] add up to [2b + c], for every [t]. *)
Theorem easeInOutQuad_symmetric (b c d : Q) :
  ~ (d == 0)%Q ->
  (easeInOutQuad 0 b c d == b
   /\ easeInOutQuad d b c d == b + c
   /\ easeInOutQuad (d / 2) b c d == b + c / 2
   /\ forall t,
        easeInOutQuad t b c d + easeInOutQuad (d - t) b c d == 2 * b + c)%Q.
Proof.
  intros Hd.
  assert (Sym : forall t,
             (easeInOutQuad t b c d + easeInOutQuad (d - t) b c d
              == 2 * b + c)%Q).
  { intros t.
    assert (E : ((d - t) / (d / 2) == 2 - t / (d / 2))%Q)
      by (field; exact Hd).
    destruct (Qlt_le_dec (t / (d / 2)) 1) as [L | L].
    - rewrite (easeInOutQuad_first t) by exact L.
      rewrite (easeInOutQuad_second (d - t)) by (rewrite E; lra).
      rewrite E. generalize (t / (d / 2))%Q. intros u. field.
    - destruct (Qlt_le_dec ((d - t) / (d / 2)) 1) as [L' | L'].
      + rewrite (easeInOutQuad_second t) by exact L.
        rewrite (easeInOutQuad_first (d - t)) by exact L'.
        rewrite E. generalize (t / (d / 2))%Q. intros u. field.
      + rewrite (easeInOutQuad_second t) by exact L.
        rewrite (easeInOutQuad_second (d - t)) by exact L'.
        rewrite E in *.
        assert (U : (t / (d / 2) == 1)%Q) by lra.
        rewrite U. field. }
  assert (Z0 : (0 / (d / 2) == 0)%Q) by (field; exact Hd).
  assert (Zd : (d / (d / 2) == 2)%Q) by (field; exact Hd).
  assert (Zh : (d / 2 / (d / 2) == 1)%Q) by (field; exact Hd).
  split; [|split; [|split]].
  - rewrite easeInOutQuad_first by (rewrite Z0; reflexivity).
    rewrite Z0. field.
  - rewrite easeInOutQuad_second by (rewrite Zd; discriminate).
    rewrite Zd. field.
  - rewrite easeInOutQuad_second by (rewrite Zh; discriminate).
    rewrite Zh. field.
  - exact Sym.
Qed.

Lemma easeInOutQuad_symmetric_witness :
  (easeInOutQuad 0 100 600 800 == 100
   /\ easeInOutQuad 800 100 600 800 == 100 + 600
   /\ easeInOutQuad (800 / 2) 100 600 800 == 100 + 600 / 2
   /\ forall t,
        easeInOutQuad t 100 600 800 + easeInOutQuad (800 - t) 100 600 800
        == 2 * 100 + 600)%Q.
Proof.
  apply (easeInOutQuad_symmetric 100 600 800). discriminate.
Defined.

Lemma ease_unit_range (t d : Q) :
  (0 < d)%Q -> (0 <= t)%Q -> (t <= d)%Q ->
  (0 <= t / (d / 2) /\ t / (d / 2) <= 2)%Q.
Proof.
  intros Hd H0 H1.
  assert (Hd' : ~ (d == 0)%Q) by lra.
  pose proof (ease_ratio t d Hd') as E.
  generalize dependent (t / (d / 2))%Q. intros u E.
  split; nra.
Qed.

(** X10 (easing: range and order).  For a positive duration the eased
    position is the start plus the distance times a progress that does not
    depend on either; for times between 0 and the duration the progress
    lies between 0 and 1 and never decreases with time, so the position
    stays between the start and the target and never moves back. *)
Theorem easeInOutQuad_progress (d : Q) :
  (0 < d)%Q ->
  (forall t b c,
     (easeInOutQuad t b c d == b + c * easeInOutQuad t 0 1 d)%Q)
  /\ (forall t, (0 <= t)%Q -> (t <= d)%Q ->
        (0 <= easeInOutQuad t 0 1 d /\ easeInOutQuad t 0 1 d <= 1)%Q)
  /\ (forall t1 t2, (0 <= t1)%Q -> (t1 <= t2)%Q -> (t2 <= d)%Q ->
        (easeInOutQuad t1 0 1 d <= easeInOutQuad t2 0 1 d)%Q).
Proof.
  intros Hd. split; [|split].
  - intros t b c.
    destruct (Qlt_le_dec (t / (d / 2)) 1) as [L | L].
    + rewrite !easeInOutQuad_first by exact L. field. lra.
    + rewrite !easeInOutQuad_second by exact L. field. lra.
  - intros t H0 H1.
    destruct (ease_unit_range t d Hd H0 H1) as [U0 U2].
    destruct (Qlt_le_dec (t / (d / 2)) 1) as [L | L].
    + rewrite easeInOutQuad_first by exact L.
      generalize dependent (t / (d / 2))%Q. intros u U0 U2 L.
      unfold Qdiv; change (/ 2)%Q with (1 # 2)%Q. split; nra.
    + rewrite easeInOutQuad_second by exact L.
      generalize dependent (t / (d / 2))%Q. intros u U0 U2 L.
      unfold Qdiv; change (/ 2)%Q with (1 # 2)%Q. split; nra.
  - intros t1 t2 H0 H12 H2.
    destruct (ease_unit_range t1 d Hd H0) as [A0 A2]; [lra|].
    destruct (ease_unit_range t2 d Hd) as [B0 B2]; [lra | lra |].
    assert (Hd' : ~ (d == 0)%Q) by lra.
    pose proof (ease_ratio t1 d Hd') as E1.
    pose proof (ease_ratio t2 d Hd') as E2.
    assert (U : (t1 / (d / 2) <= t2 / (d / 2))%Q).
    { generalize dependent (t1 / (d / 2))%Q. intros u1 A0 A2 E1.
      generalize dependent (t2 / (d / 2))%Q. intros u2 B0 B2 E2. nra. }
    destruct (Qlt_le_dec (t1 / (d / 2)) 1) as [L1 | L1];
      destruct (Qlt_le_dec (t2 / (d / 2)) 1) as [L2 | L2];
      rewrite ?(easeInOutQuad_first t1) by exact L1;
      rewrite ?(easeInOutQuad_second t1) by exact L1;
      rewrite ?(easeInOutQuad_first t2) by exact L2;
      rewrite ?(easeInOutQuad_second t2) by exact L2;
      clear E1 E2;
      generalize dependent (t1 / (d / 2))%Q; intros u1 A0 A2 L1;
      generalize dependent (t2 / (d / 2))%Q; intros u2 B0 B2 U L2;
      unfold Qdiv; change (/ 2)%Q with (1 # 2)%Q; nra.
Qed.

Lemma easeInOutQuad_progress_witness :
  (easeInOutQuad 200 100 600 800 == 100 + 600 * easeInOutQuad 200 0 1 800
   /\ 0 <= easeInOutQuad 200 0 1 800 /\ easeInOutQuad 200 0 1 800 <= 1
   /\ easeInOutQuad 200 0 1 800 <= easeInOutQuad 500 0 1 800)%Q.
Proof.
  assert (H : (0 < 800)%Q) by reflexivity.
  destruct (easeInOutQuad_progress 800 H) as (A & B & C).
  split; [apply A | split; [|split]].
  - apply B; discriminate.
  - apply B; discriminate.
  - apply C; discriminate.
Defined.

Lemma easeInOutQuad_late (t b c d : Q) :
  (0 < d)%Q -> (d <= t)%Q ->
  (easeInOutQuad t b c d == b + c - 2 * c * ((t - d) / d) * ((t - d) / d))%Q.
Proof.
  intros Hd Ht.
  assert (Hd' : ~ (d == 0)%Q) by lra.
  assert (U : (1 <= t / (d / 2))%Q).
  { pose proof (ease_ratio t d Hd') as E.
    generalize dependent (t / (d / 2))%Q. intros u E. nra. }
  rewrite easeInOutQuad_second by exact U. field. exact Hd'.
Qed.

Lemma animationFrames_running (y0 c d t0 e : Q) (pre rest : list Q) :
  Forall (fun x => x < d)%Q pre -> (d <= e)%Q ->
  exists ps,
    animationFrames y0 c d (Some t0)
      (map (Qplus t0) pre ++ (t0 + e)%Q :: rest)
    = ps ++ [easeInOutQuad (t0 + e - t0) y0 c d]
    /\ length ps = length pre.
Proof.
  intros Hpre He. induction Hpre as [|x pre Hx Hpre IH].
  - exists []. cbn [map app animationFrames length].
    unfold animation. cbv beta iota zeta.
    assert (F : Qltb (t0 + e - t0) d = false) by (apply Qltb_ge; lra).
    rewrite F. auto.
  - destruct IH as (ps & E & L).
    exists (easeInOutQuad (t0 + x - t0) y0 c d :: ps).
    cbn [map app animationFrames length].
    unfold animation. cbv beta iota zeta.
    assert (F : Qltb (t0 + x - t0) d = true) by (apply Qltb_lt; lra).
    rewrite F. rewrite E. auto.
Qed.

(** X11 (the last frame of the scroll fallback).  For a positive duration,
    [smoothScrollTo] scrolls to the start position on its first frame,
    keeps asking for frames while the elapsed time is below the duration,
    and stops at the first frame at or past it, without any clamping: that
    last frame, [e] after the first, scrolls to the target minus twice the
    distance times the square of [(e - duration) / duration].  It ends on
    the target exactly when the frame arrives at the duration or there was
    no distance to go. *)
Theorem smoothScrollTo_last_frame (target duration y0 t0 e : Q)
  (pre rest : list Q) :
  (0 < duration)%Q -> Forall (fun x => x < duration)%Q pre ->
  (duration <= e)%Q ->
  exists first ps final,
    smoothScrollTo target duration y0
      (t0 :: map (Qplus t0) pre ++ (t0 + e)%Q :: rest)
    = first :: ps ++ [final]
    /\ length ps = length pre
    /\ (first == y0)%Q
    /\ (final == target
                 - 2 * (target - y0) * ((e - duration) / duration)
                   * ((e - duration) / duration))%Q
    /\ ((final == target)%Q <-> (e == duration \/ target == y0)%Q).
Proof.
  intros Hd Hpre He.
  destruct (animationFrames_running y0 (target - y0) duration t0 e pre rest
              Hpre He) as (ps & E & L).
  assert (Hd' : ~ (duration == 0)%Q) by lra.
  assert (Hfinal : (easeInOutQuad (t0 + e - t0) y0 (target - y0) duration
                    == target
                       - 2 * (target - y0) * ((e - duration) / duration)
                         * ((e - duration) / duration))%Q).
  { rewrite (easeInOutQuad_compat (t0 + e - t0) e) by ring.
    rewrite easeInOutQuad_late by assumption. ring. }
  exists (easeInOutQuad (t0 - t0) y0 (target - y0) duration), ps,
    (easeInOutQuad (t0 + e - t0) y0 (target - y0) duration).
  split; [|split; [exact L | split; [|split; [exact Hfinal|]]]].
  - unfold smoothScrollTo. cbv zeta. cbn [animationFrames].
    unfold animation. cbv beta iota zeta.
    assert (F : Qltb (t0 - t0) duration = true) by (apply Qltb_lt; lra).
    rewrite F. now rewrite E.
  - rewrite (easeInOutQuad_compat (t0 - t0) 0) by ring.
    assert (Z0 : (0 / (duration / 2) == 0)%Q) by (field; exact Hd').
    rewrite easeInOutQuad_first by (rewrite Z0; reflexivity).
    rewrite Z0. field.
  - rewrite Hfinal.
    assert (R : ((e - duration) / duration * duration == e - duration)%Q)
      by (field; exact Hd').
    generalize dependent ((e - duration) / duration)%Q. intros r _ R.
    split.
    + intros H.
      assert (P : ((target - y0) * (r * r) == 0)%Q) by lra.
      apply Qmult_integral in P. destruct P as [P | P]; [right; lra|].
      apply Qmult_integral in P. left.
      assert (r == 0)%Q by tauto. nra.
    + intros [H | H].
      * assert (r == 0)%Q by nra. nra.
      * nra.
Qed.

Lemma smoothScrollTo_last_frame_witness :
  exists first ps final,
    smoothScrollTo 700 800 100
      ((5000 # 1) :: map (Qplus 5000) [16 # 1; 400 # 1]
       ++ (5000 + 816)%Q :: [832 # 1])
    = first :: ps ++ [final]
    /\ length ps = 2%nat
    /\ (first == 100)%Q
    /\ (final == 700 - 2 * (700 - 100) * ((816 - 800) / 800)
                    * ((816 - 800) / 800))%Q
    /\ ((final == 700)%Q <-> (816 == 800 \/ 700 == 100)%Q).
Proof.
  apply (smoothScrollTo_last_frame 700 800 100 5000 816
           [16 # 1; 400 # 1] [832 # 1]).
  - reflexivity.
  - repeat constructor.
  - discriminate.
Defined.

(** ** The e-mail pattern *)

Lemma matches_nil_nullable (r : regex) (s : jsstring) :
  matches r s -> s = [] -> nullable r = true.
Proof.
  induction 1; intros E; simpl; trivial; try discriminate E.
  - apply app_eq_nil in E. destruct E as [E1 E2].
    now rewrite IHmatches1, IHmatches2.
  - now rewrite IHmatches.
  - rewrite IHmatches by exact E. apply orb_true_r.
Qed.

Lemma nullable_matches_nil (r : regex) :
  nullable r = true -> matches r [].
Proof.
  induction r; simpl; intros H; try discriminate H.
  - constructor.
  - apply andb_true_iff in H. destruct H as [H1 H2].
    change (@nil N) with (@nil N ++ []). constructor; auto.
  - apply orb_true_iff in H. destruct H as [H | H].
    + apply m_alt_l. auto.
    + apply m_alt_r. auto.
  - constructor.
Qed.

Lemma derive_sound (r : regex) :
  forall c s, matches (derive c r) s -> matches r (c :: s).
Proof.
  induction r; simpl; intros c s H.
  - inversion H.
  - inversion H.
  - destruct (p c) eqn:E; inversion H; subst. now constructor.
  - destruct (nullable r1) eqn:N1.
    + inversion H; subst.
      * match goal with
        | M : matches (Seq _ _) _ |- _ => inversion M; subst
        end.
        change (c :: s1 ++ s2) with ((c :: s1) ++ s2).
        constructor; auto.
      * change (c :: s) with ([] ++ c :: s).
        constructor; auto using nullable_matches_nil.
    + inversion H; subst.
      change (c :: s1 ++ s2) with ((c :: s1) ++ s2).
      constructor; auto.
  - inversion H; subst; [apply m_alt_l | apply m_alt_r]; auto.
  - inversion H; subst.
    change (c :: s1 ++ s2) with ((c :: s1) ++ s2).
    constructor; auto.
Qed.

Lemma derive_complete (r : regex) (s' : jsstring) :
  matches r s' -> forall c s, s' = c :: s -> matches (derive c r) s.
Proof.
  induction 1; intros c0 s0 E; simpl; try discriminate E.
  - inversion E; subst. rewrite H. constructor.
  - destruct s1 as [|c1 s1]; simpl in E.
    + subst s2.
      rewrite (matches_nil_nullable r1 [] H eq_refl).
      apply m_alt_r. auto.
    + inversion E; subst.
      destruct (nullable r1).
      * apply m_alt_l. constructor; auto.
      * constructor; auto.
  - apply m_alt_l. auto.
  - apply m_alt_r. auto.
  - destruct s1 as [|c1 s1]; simpl in E.
    + subst s2. apply (IHmatches2 c0 s0 eq_refl).
    + inversion E; subst. constructor; auto.
Qed.

Lemma regexTest_matches (s : jsstring) :
  forall r, regexTest r s = true <-> matches r s.
Proof.
  induction s as [|c s IH]; intros r; simpl.
  - split; [apply nullable_matches_nil |].
    intros H. now apply (matches_nil_nullable r []).
  - rewrite IH. split.
    + apply derive_sound.
    + intros H. now apply (derive_complete r (c :: s)).
Qed.

Lemma matches_star_class (p : N -> bool) (s : jsstring) :
  matches (Star (Class p)) s <-> forallb p s = true.
Proof.
  split.
  - intros H. remember (Star (Class p)) as r eqn:Er.
    induction H; try discriminate Er; trivial.
    inversion Er; subst.
    inversion H; subst. simpl.
    rewrite IHmatches2 by reflexivity.
    match goal with
    | P : p _ = true |- _ => now rewrite P
    end.
  - induction s as [|c s IH]; simpl; intros H.
    + constructor.
    + apply andb_true_iff in H. destruct H as [Hc Hs].
      change (c :: s) with ([c] ++ s).
      constructor; [now constructor | auto].
Qed.

Lemma matches_plus_class (p : N -> bool) (s : jsstring) :
  matches (Plus (Class p)) s <-> s <> [] /\ forallb p s = true.
Proof.
  unfold Plus. split.
  - intros H. inversion H; subst.
    match goal with
    | M : matches (Class _) _ |- _ => inversion M; subst
    end.
    split; [discriminate|]. simpl.
    match goal with
    | P : p _ = true |- _ => rewrite P
    end.
    now apply matches_star_class.
  - intros [Hn Hf]. destruct s as [|c s]; [congruence|].
    simpl in Hf. apply andb_true_iff in Hf. destruct Hf as [Hc Hs].
    change (c :: s) with ([c] ++ s).
    constructor; [now constructor | now apply matches_star_class].
Qed.

Lemma matches_class_eq (k : N) (s : jsstring) :
  matches (Class (N.eqb k)) s <-> s = [k].
Proof.
  split.
  - intros H. inversion H; subst.
    match goal with
    | P : (_ =? _)%N = true |- _ => apply N.eqb_eq in P; now subst
    end.
  - intros ->. constructor. apply N.eqb_refl.
Qed.

(** X12 (the e-mail pattern).  The pattern of the form accepts a string
    exactly when it splits as [a @ b . c] with [a], [b] and [c] not empty
    and free of white space and of [@]. *)
Theorem emailRegex_accepts (s : jsstring) :
  regexTest emailRegex s = true
  <-> exists a b c,
        s = a ++ [64%N] ++ b ++ [46%N] ++ c
        /\ a <> [] /\ b <> [] /\ c <> []
        /\ forallb plainChar a = true
        /\ forallb plainChar b = true
        /\ forallb plainChar c = true.
Proof.
  rewrite regexTest_matches. unfold emailRegex. split.
  - intros H.
    inversion H as [| |? ? a r1 Ha H1| | | |]; subst.
    inversion H1 as [| |? ? at_ r2 Hat H2| | | |]; subst.
    inversion H2 as [| |? ? b r3 Hb H3| | | |]; subst.
    inversion H3 as [| |? ? dot c Hdot Hc| | | |]; subst.
    apply matches_plus_class in Ha, Hb, Hc.
    apply matches_class_eq in Hat, Hdot. subst.
    exists a, b, c. tauto.
  - intros (a & b & c & -> & Ha & Hb & Hc & Fa & Fb & Fc).
    constructor; [now apply matches_plus_class|].
    constructor; [now apply matches_class_eq|].
    constructor; [now apply matches_plus_class|].
    constructor; [now apply matches_class_eq|].
    now apply matches_plus_class.
Qed.

Lemma plainChar_count (s : jsstring) :
  forallb plainChar s = true ->
  count_occ N.eq_dec s 64%N = 0%nat
  /\ forallb (fun c => negb (isWhiteSpace c)) s = true.
Proof.
  induction s as [|c s IH]; simpl; intros H; auto.
  apply andb_true_iff in H. destruct H as [Hc Hs].
  destruct (IH Hs) as [I1 I2]. rewrite I2.
  unfold plainChar in Hc. apply negb_true_iff in Hc.
  apply orb_false_iff in Hc. destruct Hc as [Hw Ha].
  rewrite Hw. split; [|reflexivity].
  destruct (N.eq_dec c 64) as [E | E]; trivial.
  subst c. discriminate Ha.
Qed.

(** X13 (what an accepted address looks like).  A string the pattern
    accepts holds exactly one [@], no white space, and at least five code
    units; the strings with no [@], with two, or with no dot after the
    [@] are all rejected. *)
Theorem emailRegex_shape (s : jsstring) :
  regexTest emailRegex s = true ->
  count_occ N.eq_dec s 64%N = 1%nat
  /\ forallb (fun c => negb (isWhiteSpace c)) s = true
  /\ (5 <= length s)%nat
  /\ exists a rest,
       s = a ++ 64%N :: rest /\ a <> []
       /\ In 46%N rest /\ ~ In 64%N rest.
Proof.
  intros H. apply emailRegex_accepts in H.
  destruct H as (a & b & c & -> & Ha & Hb & Hc & Fa & Fb & Fc).
  destruct (plainChar_count a Fa) as [A1 A2].
  destruct (plainChar_count b Fb) as [B1 B2].
  destruct (plainChar_count c Fc) as [C1 C2].
  split; [|split; [|split]].
  - rewrite !count_occ_app, A1, B1, C1. reflexivity.
  - rewrite !forallb_app, A2, B2, C2. reflexivity.
  - rewrite !length_app. simpl.
    destruct a; [congruence|]. destruct b; [congruence|].
    destruct c; [congruence|]. simpl. lia.
  - exists a, (b ++ [46%N] ++ c). split; [reflexivity | split; [exact Ha|]].
    split.
    + apply in_or_app. right. simpl. auto.
    + intros Hin.
      assert (Hz : count_occ N.eq_dec (b ++ [46%N] ++ c) 64%N = 0%nat)
        by (rewrite !count_occ_app, B1, C1; reflexivity).
      apply (count_occ_not_In N.eq_dec) in Hz. exact (Hz Hin).
Qed.

Lemma emailRegex_shape_witness :
  let s := [97; 64; 98; 46; 99]%N in
  count_occ N.eq_dec s 64%N = 1%nat
  /\ forallb (fun c => negb (isWhiteSpace c)) s = true
  /\ (5 <= length s)%nat
  /\ exists a rest,
       s = a ++ 64%N :: rest /\ a <> []
       /\ In 46%N rest /\ ~ In 64%N rest.
Proof.
  apply (emailRegex_shape [97; 64; 98; 46; 99]%N). reflexivity.
Defined.

(** ** The contact form *)

Lemma falsy_length (v : option jsstring) :
  falsy v = (lengthOf v =? 0)%nat.
Proof. destruct v as [[|c s]|]; reflexivity. Qed.

Lemma testOf_falsy (r : regex) (v : option jsstring) :
  nullable r = false -> falsy v = true -> testOf r v = false.
Proof.
  intros Hr. destruct v as [[|c s]|]; simpl; intros H;
    trivial; discriminate H.
Qed.

Lemma short_or_empty (l k : nat) :
  (0 < k)%nat -> ((l =? 0) || (l <? k))%nat = negb (k <=? l)%nat.
Proof.
  intros Hk. rewrite Nat.ltb_antisym.
  destruct (l =? 0)%nat eqn:E; simpl; trivial.
  apply Nat.eqb_eq in E. subst l.
  destruct (k <=? 0)%nat eqn:F; trivial. apply Nat.leb_le in F. lia.
Qed.

Lemma falsy_short (v : option jsstring) (k : nat) :
  falsy v = true -> (0 < k)%nat -> (k <=? lengthOf v)%nat = false.
Proof.
  intros H Hk. rewrite falsy_length in H. apply Nat.eqb_eq in H.
  rewrite H. apply Nat.leb_gt. exact Hk.
Qed.

Lemma validateFormSubmission_normal (data : FormData) :
  validateFormSubmission data
  = (nameOk data && emailOk data && projectTypeOk data && messageOk data,
     nameErrors data ++ emailErrors data ++ projectTypeErrors data
     ++ messageErrors data).
Proof.
  unfold validateFormSubmission, nameOk, emailOk, projectTypeOk, messageOk,
    nameErrors, emailErrors, projectTypeErrors, messageErrors.
  destruct data as [n e p m]. cbn [name email projectType message].
  rewrite (falsy_length n), (short_or_empty (lengthOf n) 2) by lia.
  rewrite (Nat.ltb_antisym (lengthOf n) 50).
  rewrite (Nat.ltb_antisym 10 (lengthOf m)),
    (Nat.ltb_antisym (lengthOf m) 1000).
  pose proof (testOf_falsy emailRegex e eq_refl) as He.
  pose proof (falsy_short m 10) as Hm.
  destruct (2 <=? lengthOf n)%nat; [destruct (lengthOf n <=? 50)%nat|];
    cbn [negb andb orb app]; cbv iota;
    (destruct (falsy e);
     [rewrite ?(He eq_refl) | destruct (testOf emailRegex e)]);
    cbn [negb andb orb app]; cbv iota;
    destruct (falsy p); cbn [negb andb orb app]; cbv iota;
    (destruct (falsy m);
     [rewrite ?(Hm eq_refl) by lia
     | destruct (10 <=? lengthOf m)%nat;
       [destruct (lengthOf m <=? 1000)%nat|]]);
    reflexivity.
Qed.

Lemma nameErrors_cases (data : FormData) :
  (nameOk data = true /\ nameErrors data = [])
  \/ (nameOk data = false
      /\ exists msg, nameErrors data = [("name"%string, msg)]).
Proof.
  unfold nameOk, nameErrors.
  rewrite falsy_length, (short_or_empty _ 2) by lia.
  rewrite (Nat.ltb_antisym (lengthOf (name data)) 50).
  destruct (2 <=? lengthOf (name data))%nat;
    [destruct (lengthOf (name data) <=? 50)%nat|]; simpl; eauto.
Qed.

Lemma emailErrors_cases (data : FormData) :
  (emailOk data = true /\ emailErrors data = [])
  \/ (emailOk data = false
      /\ exists msg, emailErrors data = [("email"%string, msg)]).
Proof.
  unfold emailOk, emailErrors.
  pose proof (testOf_falsy emailRegex (email data) eq_refl) as He.
  destruct (falsy (email data)).
  - rewrite (He eq_refl). eauto.
  - destruct (testOf emailRegex (email data)); simpl; eauto.
Qed.

Lemma projectTypeErrors_cases (data : FormData) :
  (projectTypeOk data = true /\ projectTypeErrors data = [])
  \/ (projectTypeOk data = false
      /\ exists msg, projectTypeErrors data = [("projectType"%string, msg)]).
Proof.
  unfold projectTypeOk, projectTypeErrors.
  destruct (falsy (projectType data)); simpl; eauto.
Qed.

Lemma messageErrors_cases (data : FormData) :
  (messageOk data = true /\ messageErrors data = [])
  \/ (messageOk data = false
      /\ exists msg, messageErrors data = [("message"%string, msg)]).
Proof.
  unfold messageOk, messageErrors.
  pose proof (falsy_short (message data) 10) as Hm.
  rewrite (Nat.ltb_antisym 10 (lengthOf (message data))),
    (Nat.ltb_antisym (lengthOf (message data)) 1000).
  destruct (falsy (message data)).
  - rewrite (Hm eq_refl) by lia. simpl. eauto.
  - destruct (10 <=? lengthOf (message data))%nat;
      [destruct (lengthOf (message data) <=? 1000)%nat|]; simpl; eauto.
Qed.

(** X14 (the verdict on a submission).  [validateFormSubmission] returns
    true exactly when the name has 2 to 50 code units, the e-mail matches
    the pattern, a project type is chosen and the message has 10 to 1000
    code units; it returns true exactly when it has recorded no error; it
    records at most one error per field, in the order name, e-mail, project
    type, message, so the field it focuses is the first of these that
    fails. *)
Theorem validateFormSubmission_verdict (data : FormData) :
  let r := validateFormSubmission data in
  fst r = nameOk data && emailOk data && projectTypeOk data && messageOk data
  /\ (fst r = true <-> snd r = [])
  /\ map fst (snd r)
     = (if nameOk data then [] else ["name"%string])
       ++ (if emailOk data then [] else ["email"%string])
       ++ (if projectTypeOk data then [] else ["projectType"%string])
       ++ (if messageOk data then [] else ["message"%string])
  /\ firstErrorField (snd r)
     = if negb (nameOk data) then Some "name"%string
       else if negb (emailOk data) then Some "email"%string
       else if negb (projectTypeOk data) then Some "projectType"%string
       else if negb (messageOk data) then Some "message"%string
       else None.
Proof.
  cbv zeta. rewrite validateFormSubmission_normal. cbn [fst snd].
  destruct (nameErrors_cases data) as [[-> ->] | [-> [m1 ->]]];
    destruct (emailErrors_cases data) as [[-> ->] | [-> [m2 ->]]];
    destruct (projectTypeErrors_cases data) as [[-> ->] | [-> [m3 ->]]];
    destruct (messageErrors_cases data) as [[-> ->] | [-> [m4 ->]]];
    cbn; (split; [reflexivity | split; [|split; reflexivity]]);
    split; intros H; try reflexivity; discriminate H.
Qed.

Lemma regexTest_email_nil : regexTest emailRegex [] = false.
Proof. reflexivity. Qed.

Lemma length_zero_nil (s : jsstring) : (length s =? 0)%nat = true -> s = [].
Proof. destruct s; [reflexivity | discriminate]. Qed.

Lemma fieldVerdict_name (v : jsstring) :
  fieldVerdict "name" v
  = (2 <=? length (trim v))%nat && (length (trim v) <=? 50)%nat
  /\ fieldMessage "name" v
     = (if (length (trim v) =? 0)%nat then "Name is required"
        else if (length (trim v) <? 2)%nat
             then "Name must be at least 2 characters long"
             else if (50 <? length (trim v))%nat
                  then "Name must be less than 50 characters"
                  else "")%string.
Proof.
  unfold fieldVerdict, fieldMessage, validateField.
  cbn [fieldName fieldValue]. cbv zeta.
  change (String.eqb "name" "name") with true. cbv iota.
  destruct (length (trim v) =? 0)%nat eqn:A;
    destruct (length (trim v) <? 2)%nat eqn:B;
    destruct (50 <? length (trim v))%nat eqn:C;
    destruct (2 <=? length (trim v))%nat eqn:D;
    destruct (length (trim v) <=? 50)%nat eqn:E;
    reflect_nat; try lia; split; reflexivity.
Qed.

Lemma fieldVerdict_email (v : jsstring) :
  fieldVerdict "email" v = regexTest emailRegex (trim v)
  /\ fieldMessage "email" v
     = (if (length (trim v) =? 0)%nat then "Email is required"
        else if negb (regexTest emailRegex (trim v))
             then "Please enter a valid email address"
             else "")%string.
Proof.
  unfold fieldVerdict, fieldMessage, validateField.
  cbn [fieldName fieldValue]. cbv zeta.
  change (String.eqb "email" "name") with false.
  change (String.eqb "email" "email") with true. cbv iota.
  destruct (length (trim v) =? 0)%nat eqn:A.
  - rewrite (length_zero_nil _ A). split; reflexivity.
  - destruct (regexTest emailRegex (trim v)); split; reflexivity.
Qed.

Lemma fieldVerdict_projectType (v : jsstring) :
  fieldVerdict "projectType" v = negb (length (trim v) =? 0)%nat.
Proof.
  unfold fieldVerdict, validateField.
  cbn [fieldName fieldValue]. cbv zeta.
  change (String.eqb "projectType" "name") with false.
  change (String.eqb "projectType" "email") with false.
  change (String.eqb "projectType" "projectType") with true. cbv iota.
  destruct (trim v); reflexivity.
Qed.

Lemma fieldVerdict_message (v : jsstring) :
  fieldVerdict "message" v
  = (10 <=? length (trim v))%nat && (length (trim v) <=? 1000)%nat
  /\ fieldMessage "message" v
     = (if (length (trim v) =? 0)%nat then "Message is required"
        else if (length (trim v) <? 10)%nat
             then "Message must be at least 10 characters long"
             else if (1000 <? length (trim v))%nat
                  then "Message must be less than 1000 characters"
                  else "")%string.
Proof.
  unfold fieldVerdict, fieldMessage, validateField.
  cbn [fieldName fieldValue]. cbv zeta.
  change (String.eqb "message" "name") with false.
  change (String.eqb "message" "email") with false.
  change (String.eqb "message" "projectType") with false.
  change (String.eqb "message" "message") with true. cbv iota.
  destruct (length (trim v) =? 0)%nat eqn:A;
    destruct (length (trim v) <? 10)%nat eqn:B;
    destruct (1000 <? length (trim v))%nat eqn:C;
    destruct (10 <=? length (trim v))%nat eqn:D;
    destruct (length (trim v) <=? 1000)%nat eqn:E;
    reflect_nat; try lia; split; reflexivity.
Qed.

(** X15 (the two validators agree).  On the data that the submit listener
    builds from the values of the form, [validateFormSubmission] accepts
    exactly when [validateField] accepts the name, the e-mail and the
    message and the project type is not the empty string; [validateField]
    trims the project type and the submission does not.  Where both
    reject the e-mail or the message they give the same text; for the name
    they do so unless the trimmed name is empty, which the field calls
    required and the submission too short. *)
Theorem validators_agree (vN vE vP vM : jsstring) :
  let r := validateFormSubmission
             (contactData (Some vN) (Some vE) (Some vP) (Some vM)) in
  fst r = fieldVerdict "name" vN && fieldVerdict "email" vE
          && negb (length vP =? 0)%nat && fieldVerdict "message" vM
  /\ fieldVerdict "projectType" vP = negb (length (trim vP) =? 0)%nat
  /\ (fieldVerdict "email" vE = false ->
      In ("email"%string, fieldMessage "email" vE) (snd r))
  /\ (fieldVerdict "message" vM = false ->
      In ("message"%string, fieldMessage "message" vM) (snd r))
  /\ (fieldVerdict "name" vN = false -> trim vN <> [] ->
      In ("name"%string, fieldMessage "name" vN) (snd r))
  /\ (trim vN = [] ->
      fieldMessage "name" vN = "Name is required"%string
      /\ In ("name",
             "Name must be at least 2 characters long")%string (snd r)).
Proof.
  cbv zeta. rewrite validateFormSubmission_normal. cbn [fst snd].
  destruct (fieldVerdict_name vN) as [VN MN].
  destruct (fieldVerdict_email vE) as [VE ME].
  destruct (fieldVerdict_message vM) as [VM MM].
  rewrite VN, VE, VM, MN, ME, MM, fieldVerdict_projectType.
  unfold nameOk, emailOk, projectTypeOk, messageOk, nameErrors, emailErrors,
    projectTypeErrors, messageErrors, contactData.
  cbn [name email projectType message option_map lengthOf testOf].
  rewrite !falsy_length. cbn [lengthOf].
  split; [|split; [reflexivity|]].
  { reflexivity. }
  split; [|split; [|split]].
  - intros H. apply in_or_app. right. apply in_or_app. left.
    rewrite H. destruct (length (trim vE) =? 0)%nat; simpl; auto.
  - intros H. apply in_or_app. right. apply in_or_app. right.
    apply in_or_app. right.
    destruct (length (trim vM) =? 0)%nat eqn:A;
      destruct (length (trim vM) <? 10)%nat eqn:B;
      destruct (1000 <? length (trim vM))%nat eqn:C;
      destruct (10 <=? length (trim vM))%nat eqn:D;
      destruct (length (trim vM) <=? 1000)%nat eqn:E;
      reflect_nat; try lia; try discriminate H; simpl; auto.
  - intros H Hn. apply in_or_app. left.
    destruct (length (trim vN) =? 0)%nat eqn:A.
    + apply length_zero_nil in A. contradiction.
    + destruct (length (trim vN) <? 2)%nat eqn:B;
        destruct (50 <? length (trim vN))%nat eqn:C;
        destruct (2 <=? length (trim vN))%nat eqn:D;
        destruct (length (trim vN) <=? 50)%nat eqn:E;
        reflect_nat; try lia; try discriminate H; simpl; auto.
  - intros Hn. rewrite Hn. simpl. auto.
Qed.

Lemma validators_agree_witness :
  let vN := [32; 65; 32]%N in
  let r := validateFormSubmission
             (contactData (Some vN) (Some [97; 64; 98]%N)
                (Some [32]%N) (Some [104; 105]%N)) in
  fst r = false
  /\ In ("email"%string, "Please enter a valid email address"%string) (snd r)
  /\ In ("message"%string,
         "Message must be at least 10 characters long"%string) (snd r)
  /\ In ("name"%string,
         "Name must be at least 2 characters long"%string) (snd r).
Proof.
  intros vN r.
  destruct (validators_agree vN [97; 64; 98]%N [32]%N [104; 105]%N)
    as (A & _ & B & C & D & _).
  split; [exact A | split; [|split]].
  - apply B. reflexivity.
  - apply C. reflexivity.
  - apply D; [reflexivity | discriminate].
Defined.

(** X16 (the state a field is left in).  [validateField] leaves the field
    with exactly one of the classes [valid] and [error], the one that fits
    the value it returns; the message is empty exactly when the field is
    valid; and a field whose name is none of name, email, projectType and
    message is always valid, whatever it holds. *)
Theorem validateField_state (field : Field) :
  let isValid := fst (fst (validateField field)) in
  let errorMessage := snd (fst (validateField field)) in
  let field' := snd (validateField field) in
  classValid field' = isValid
  /\ classError field' = negb isValid
  /\ fieldName field' = fieldName field
  /\ fieldValue field' = fieldValue field
  /\ (isValid = true <-> errorMessage = ""%string)
  /\ (String.eqb (fieldName field) "name" = false ->
      String.eqb (fieldName field) "email" = false ->
      String.eqb (fieldName field) "projectType" = false ->
      String.eqb (fieldName field) "message" = false ->
      isValid = true).
Proof.
  cbv zeta. unfold validateField. cbv zeta.
  destruct (String.eqb (fieldName field) "name");
    [|destruct (String.eqb (fieldName field) "email");
      [|destruct (String.eqb (fieldName field) "projectType");
        [|destruct (String.eqb (fieldName field) "message")]]].
  - destruct (length (trim (fieldValue field)) =? 0)%nat;
      [|destruct (length (trim (fieldValue field)) <? 2)%nat;
        [|destruct (50 <? length (trim (fieldValue field)))%nat]];
      cbn; repeat split; intros; try reflexivity; discriminate.
  - destruct (length (trim (fieldValue field)) =? 0)%nat;
      [|destruct (regexTest emailRegex (trim (fieldValue field)))];
      cbn; repeat split; intros; try reflexivity; discriminate.
  - destruct (falsy (Some (trim (fieldValue field))));
      cbn; repeat split; intros; try reflexivity; discriminate.
  - destruct (length (trim (fieldValue field)) =? 0)%nat;
      [|destruct (length (trim (fieldValue field)) <? 10)%nat;
        [|destruct (1000 <? length (trim (fieldValue field)))%nat]];
      cbn; repeat split; intros; try reflexivity; discriminate.
  - cbn. repeat split; intros; reflexivity.
Qed.

Lemma trimStart_spaces (ws s : jsstring) :
  forallb isWhiteSpace ws = true -> trimStart (ws ++ s) = trimStart s.
Proof.
  induction ws as [|c ws IH]; simpl; intros H; trivial.
  apply andb_true_iff in H. destruct H as [Hc Hw].
  rewrite Hc. auto.
Qed.

Lemma trimStart_all_spaces (ws : jsstring) :
  forallb isWhiteSpace ws = true -> trimStart ws = [].
Proof.
  intros H. rewrite <- (app_nil_r ws). now rewrite trimStart_spaces.
Qed.

Lemma trimEnd_spaces (s ws : jsstring) :
  forallb isWhiteSpace ws = true -> trimEnd (s ++ ws) = trimEnd s.
Proof.
  intros H. unfold trimEnd. rewrite rev_app_distr.
  rewrite trimStart_spaces; trivial.
  rewrite forallb_forall in *. intros c Hc. apply H.
  now apply in_rev.
Qed.

Lemma trimStart_app (v ws : jsstring) :
  forallb isWhiteSpace ws = true ->
  trimStart (v ++ ws) = trimStart v ++ ws
  \/ (trimStart (v ++ ws) = [] /\ trimStart v = []).
Proof.
  intros H. induction v as [|c v IH]; simpl.
  - right. split; trivial. now apply trimStart_all_spaces.
  - destruct (isWhiteSpace c); auto.
Qed.

Lemma trim_spaces (ws v ws' : jsstring) :
  forallb isWhiteSpace ws = true -> forallb isWhiteSpace ws' = true ->
  trim (ws ++ v ++ ws') = trim v.
Proof.
  intros H H'. unfold trim. rewrite trimStart_spaces by exact H.
  destruct (trimStart_app v ws' H') as [E | [E1 E2]].
  - rewrite E. now apply trimEnd_spaces.
  - now rewrite E1, E2.
Qed.

(** X17 (white space around a value).  White space before and after the
    value of a field never changes what [validateField] returns or the
    message it shows. *)
Theorem validateField_ignores_spaces (ws v ws' : jsstring) (field : Field) :
  forallb isWhiteSpace ws = true -> forallb isWhiteSpace ws' = true ->
  fst (validateField
         (mkField (fieldName field) (ws ++ v ++ ws')
            (classError field) (classValid field)))
  = fst (validateField
           (mkField (fieldName field) v
              (classError field) (classValid field))).
Proof.
  intros H H'. unfold validateField. cbn [fieldName fieldValue]. cbv zeta.
  rewrite (trim_spaces ws v ws' H H').
  destruct (String.eqb (fieldName field) "name");
    [|destruct (String.eqb (fieldName field) "email");
      [|destruct (String.eqb (fieldName field) "projectType");
        [|destruct (String.eqb (fieldName field) "message")]]].
  - destruct (length (trim v) =? 0)%nat;
      [|destruct (length (trim v) <? 2)%nat;
        [|destruct (50 <? length (trim v))%nat]]; reflexivity.
  - destruct (length (trim v) =? 0)%nat;
      [|destruct (regexTest emailRegex (trim v))]; reflexivity.
  - destruct (falsy (Some (trim v))); reflexivity.
  - destruct (length (trim v) =? 0)%nat;
      [|destruct (length (trim v) <? 10)%nat;
        [|destruct (1000 <? length (trim v))%nat]]; reflexivity.
  - reflexivity.
Qed.

Lemma validateField_ignores_spaces_witness :
  let f := mkField "email" [] false false in
  fst (validateField
         (mkField "email" ([32; 9] ++ [97; 64; 98; 46; 99] ++ [10])%N
            false false))
  = fst (validateField (mkField "email" [97; 64; 98; 46; 99]%N false false)).
Proof.
  intros f.
  apply (validateField_ignores_spaces [32; 9]%N [97; 64; 98; 46; 99]%N
           [10]%N f); reflexivity.
Defined.

(** X18 (the character counter).  The counter of the message field carries
    [warning] exactly for more than 900 code units and [error] exactly for
    more than 1000, so it never carries [error] without [warning], and at
    exactly 1000 it warns without error. *)
Theorem updateCounter_classes (currentLength : nat) :
  fst (updateCounter currentLength) = (900 <? currentLength)%nat
  /\ snd (updateCounter currentLength) = (1000 <? currentLength)%nat
  /\ (snd (updateCounter currentLength) = true ->
      fst (updateCounter currentLength) = true).
Proof.
  assert (G : forall k : nat,
             Qgtb (inject_Z (Z.of_nat currentLength))
               (inject_Z (Z.of_nat k))
             = (k <? currentLength)%nat).
  { intros k.
    destruct (k <? currentLength)%nat eqn:E.
    - apply Qgtb_lt. rewrite <- Zlt_Qlt. apply Nat.ltb_lt in E. lia.
    - apply Qgtb_le. rewrite <- Zle_Qle. apply Nat.ltb_ge in E. lia. }
  assert (G9 : fst (updateCounter currentLength) = (900 <? currentLength)%nat).
  { unfold updateCounter. cbv zeta. cbn [fst].
    rewrite <- (G 900%nat).
    assert (Q9 : Qgtb (inject_Z (Z.of_nat currentLength)) (1000 * 0.9)
                 = Qgtb (inject_Z (Z.of_nat currentLength))
                     (inject_Z (Z.of_nat 900))).
    { apply Qltb_compat; reflexivity. }
    rewrite Q9.
    destruct (Qgtb (inject_Z (Z.of_nat currentLength))
                (inject_Z (Z.of_nat 900))); reflexivity. }
  assert (G10 : snd (updateCounter currentLength)
                = (1000 <? currentLength)%nat).
  { unfold updateCounter. cbv zeta. cbn [snd].
    rewrite <- (G 1000%nat).
    change (inject_Z (Z.of_nat 1000)) with 1000%Q.
    destruct (Qgtb (inject_Z (Z.of_nat currentLength)) 1000); reflexivity. }
  split; [exact G9 | split; [exact G10|]].
  rewrite G9, G10. intros H.
  apply Nat.ltb_lt in H. apply Nat.ltb_lt. lia.
Qed.

(** ** Keyboard navigation between the navigation links *)

Lemma navLinkKeydown_range (n index : nat) (key : NavKey) (i : nat) :
  (index < n)%nat -> navLinkKeydown n index key = Some i -> (i < n)%nat.
Proof.
  intros H E. destruct key; simpl in E; inversion E; subst; try lia.
  - apply Nat.mod_upper_bound. lia.
  - apply Nat.mod_upper_bound. lia.
  - destruct (index =? 0)%nat; lia.
  - destruct (index =? 0)%nat; lia.
Qed.

Lemma navLinkKeys_down (n k index : nat) :
  (index < n)%nat ->
  navLinkKeys n index (repeat NavArrowDown k) = ((index + k) mod n)%nat.
Proof.
  revert index. induction k as [|k IH]; intros index H; simpl.
  - rewrite Nat.add_0_r. symmetry. now apply Nat.mod_small.
  - rewrite IH by (apply Nat.mod_upper_bound; lia).
    rewrite Nat.Div0.add_mod_idemp_l. f_equal. lia.
Qed.

(** X19 (arrow keys on the navigation links).  From a link of the list,
    every sequence of keys leaves the focus on a link of the list; the
    right and left arrows undo each other, also across the ends; and as
    many down arrows as there are links return to the link they started
    from. *)
Theorem navLinkKeys_cycle (n index : nat) :
  (index < n)%nat ->
  (forall keys, (navLinkKeys n index keys < n)%nat)
  /\ navLinkKeys n index [NavArrowRight; NavArrowLeft] = index
  /\ navLinkKeys n index [NavArrowLeft; NavArrowRight] = index
  /\ navLinkKeys n index (repeat NavArrowDown n) = index.
Proof.
  intros H. split; [|split; [|split]].
  - intros keys. revert index H.
    induction keys as [|key keys IH]; intros index H; simpl; trivial.
    destruct (navLinkKeydown n index key) as [i|] eqn:E; auto.
    apply IH. eapply navLinkKeydown_range; eauto.
  - simpl. destruct (Nat.eq_dec (index + 1) n) as [E | E].
    + rewrite E, Nat.Div0.mod_same. simpl. lia.
    + rewrite Nat.mod_small by lia.
      destruct (index + 1 =? 0)%nat eqn:F;
        [apply Nat.eqb_eq in F|]; lia.
  - simpl. destruct (index =? 0)%nat eqn:F.
    + apply Nat.eqb_eq in F. subst index.
      replace (n - 1 + 1)%nat with n by lia. apply Nat.Div0.mod_same.
    + apply Nat.eqb_neq in F.
      replace (index - 1 + 1)%nat with index by lia.
      now apply Nat.mod_small.
  - rewrite navLinkKeys_down by exact H.
    rewrite <- Nat.Div0.add_mod_idemp_r, Nat.Div0.mod_same, Nat.add_0_r.
    now apply Nat.mod_small.
Qed.

Lemma navLinkKeys_cycle_witness :
  navLinkKeys 6 5 [NavArrowRight; NavArrowLeft] = 5%nat
  /\ navLinkKeys 6 0 [NavArrowLeft; NavArrowRight] = 0%nat
  /\ navLinkKeys 6 2 (repeat NavArrowDown 6) = 2%nat
  /\ (navLinkKeys 6 2 [NavEnd; NavArrowDown; NavOther; NavArrowUp] < 6)%nat.
Proof.
  assert (H5 : (5 < 6)%nat) by lia.
  assert (H0 : (0 < 6)%nat) by lia.
  assert (H2 : (2 < 6)%nat) by lia.
  destruct (navLinkKeys_cycle 6 5 H5) as (_ & A & _ & _).
  destruct (navLinkKeys_cycle 6 0 H0) as (_ & _ & B & _).
  destruct (navLinkKeys_cycle 6 2 H2) as (D & _ & _ & C).
  split; [exact A | split; [exact B | split; [exact C | apply D]]].
Defined.

(** ** The mobile menu *)

Lemma menuStep_synced (m : Menu) (e : MenuEvent) :
  menuSynced m -> menuSynced (menuStep m e).
Proof.
  unfold menuSynced. destruct m as [t a o]. simpl. intros [-> ->].
  destruct e, a;
    unfold menuStep, togglePointerdown, emergencyClick, navLinkClick,
      documentClick, documentKeydown, menuResize, closeMenu;
    cbn [toggleActive menuActive navOpen negb andb];
    split_ifs; cbn [toggleActive menuActive navOpen]; auto.
Qed.

(** X20 (the three classes of the menu).  From the closed menu, after any
    sequence of toggle, link, document, key and resize events, the toggle,
    the menu and the body carry their class together or not at all; and a
    click on a link, a click outside the toggle and the menu, the Escape
    key and a resize above 767 pixels each leave the menu closed. *)
Theorem menu_classes_agree (events : list MenuEvent) :
  let m := fold_left menuStep events (mkMenu false false false) in
  menuSynced m
  /\ menuStep m NavLinkClick = mkMenu false false false
  /\ menuStep m (DocumentClick false false) = mkMenu false false false
  /\ menuStep m (DocumentKeydown true) = mkMenu false false false
  /\ (forall w, w > 767 ->
        menuStep m (MenuResize w) = mkMenu false false false).
Proof.
  cbv zeta.
  assert (S : menuSynced (fold_left menuStep events (mkMenu false false false))).
  { assert (G : forall m, menuSynced m ->
                  menuSynced (fold_left menuStep events m)).
    { induction events as [|e events IH]; intros m Hm; simpl; trivial.
      apply IH. now apply menuStep_synced. }
    apply G. split; reflexivity. }
  split; [exact S|].
  destruct (fold_left menuStep events (mkMenu false false false))
    as [t a o].
  unfold menuSynced in S. simpl in S. destruct S as [-> ->].
  repeat split.
  - simpl. unfold documentClick. simpl. destruct a; reflexivity.
  - simpl. unfold documentKeydown. simpl. destruct a; reflexivity.
  - intros w Hw. simpl. unfold menuResize. simpl.
    destruct (w >? 767) eqn:E; [destruct a; reflexivity|].
    exfalso. rewrite Z.gtb_ltb in E. apply Z.ltb_ge in E. lia.
Qed.

(** X21 (pointerdown, then click, on the toggle).  The [onclick] installed
    by [initEmergencyMenu] sets the three classes from the class of the
    menu alone, so it brings them into agreement from any state; run after
    the pointerdown listener of [setupMobileMenu] on a menu whose classes
    agree, it restores the state the menu had before the pointerdown. *)
Theorem pointerdown_then_click (m : Menu) :
  menuSynced (emergencyClick m)
  /\ (menuSynced m -> emergencyClick (togglePointerdown m) = m)
  /\ (menuSynced m ->
      fold_left menuStep [TogglePointerdown; ToggleOnclick;
                          DocumentClick true false] m = m).
Proof.
  unfold menuSynced. destruct m as [t a o]. simpl.
  split; [|split].
  - unfold emergencyClick. simpl. destruct a; simpl; auto.
  - intros [-> ->]. destruct a; reflexivity.
  - intros [-> ->]. destruct a; reflexivity.
Qed.

Lemma pointerdown_then_click_witness :
  emergencyClick (togglePointerdown (mkMenu false false false))
  = mkMenu false false false
  /\ fold_left menuStep [TogglePointerdown; ToggleOnclick;
                         DocumentClick true false] (mkMenu true true true)
     = mkMenu true true true.
Proof.
  split.
  - apply (pointerdown_then_click (mkMenu false false false)).
    split; reflexivity.
  - apply (pointerdown_then_click (mkMenu true true true)).
    split; reflexivity.
Defined.

(** ** The back-to-top button *)

Lemma backToTopStep_coherent (b : BackToTop) (e : BackToTopEvent) :
  backToTopCoherent b -> backToTopCoherent (backToTopStep b e).
Proof.
  unfold backToTopCoherent. destruct b as [v th cv ch].
  cbn [isVisible classVisible classHidden]. intros [-> Hh].
  destruct e, v;
    unfold backToTopStep, scrollFrame, hiddenTimeout, orientationTimeout,
      backToTopResize;
    cbn [isVisible classVisible classHidden scrollThreshold negb andb];
    rewrite ?andb_false_r, ?andb_true_r;
    split_ifs; cbn [isVisible classVisible classHidden];
    split; trivial; try discriminate.
Qed.

(** X22 (the back-to-top button).  After every animation frame of the
    scroll listener the button counts as visible exactly when the page is
    scrolled past the threshold; and after any sequence of scroll frames,
    timers and resizes from set-up, the class [visible] is on the button
    exactly when it counts as visible, and never together with [hidden]. *)
Theorem backToTop_visibility (events : list BackToTopEvent) :
  let b := fold_left backToTopStep events backToTopSetup in
  (forall scrollTop,
     isVisible (scrollFrame scrollTop b)
     = Qgtb scrollTop (scrollThreshold b))
  /\ classVisible b = isVisible b
  /\ (classVisible b && classHidden b = false).
Proof.
  cbv zeta.
  assert (C : backToTopCoherent (fold_left backToTopStep events backToTopSetup)).
  { assert (G : forall b, backToTopCoherent b ->
                  backToTopCoherent (fold_left backToTopStep events b)).
    { induction events as [|e events IH]; intros b Hb; simpl; trivial.
      apply IH. now apply backToTopStep_coherent. }
    apply G. split; [reflexivity | discriminate]. }
  destruct (fold_left backToTopStep events backToTopSetup) as [v th cv ch].
  unfold backToTopCoherent in C. simpl in C. destruct C as [-> Hh].
  split; [|split].
  - intros y. unfold scrollFrame, Qgtb. simpl.
    destruct (Qle_bool y th), v; reflexivity.
  - reflexivity.
  - simpl. destruct v, ch; trivial. discriminate (Hh eq_refl).
Qed.

(** ** Highlighting of the active navigation link *)

Lemma find_append (A : Type) (p : A -> bool) (l l' : list A) :
  find p (l ++ l')
  = match find p l with
    | Some x => Some x
    | None => find p l'
    end.
Proof.
  induction l as [|x l IH]; simpl; trivial.
  destruct (p x); trivial.
Qed.

Lemma last_match_fold (A : Type) (p : A -> bool) (l : list A)
  (acc : option A) :
  fold_left (fun a x => if p x then Some x else a) l acc
  = match find p (rev l) with
    | Some x => Some x
    | None => acc
    end.
Proof.
  revert acc. induction l as [|x l IH]; intros acc; simpl; trivial.
  rewrite IH. rewrite find_append.
  destruct (find p (rev l)); trivial.
  simpl. destruct (p x); reflexivity.
Qed.

Lemma activateFirst_href (t : string) (l : list NavLink) :
  map href (activateFirst t l) = map href l.
Proof.
  induction l as [|x l IH]; simpl; trivial.
  destruct (String.eqb (href x) t); simpl; congruence.
Qed.

Lemma activateFirst_count (t : string) (l : list NavLink) :
  forallb (fun x => negb (linkActive x)) l = true ->
  (length (filter linkActive (activateFirst t l)) <= 1)%nat
  /\ (forall x, In x (activateFirst t l) -> linkActive x = true ->
        href x = t).
Proof.
  induction l as [|x l IH]; simpl; intros H.
  - split; [lia | tauto].
  - apply andb_true_iff in H. destruct H as [Hx Hl].
    apply negb_true_iff in Hx.
    destruct (String.eqb (href x) t) eqn:E; simpl.
    + assert (F : filter linkActive l = []).
      { clear - Hl. induction l as [|y l IH]; simpl; trivial.
        simpl in Hl. apply andb_true_iff in Hl. destruct Hl as [Hy Hl].
        apply negb_true_iff in Hy. rewrite Hy. auto. }
      rewrite F. split; [simpl; lia|].
      intros y [<- | Hy] Ha.
      * simpl. now apply String.eqb_eq.
      * exfalso. rewrite forallb_forall in Hl.
        specialize (Hl y Hy). rewrite Ha in Hl. discriminate Hl.
    + rewrite Hx. destruct (IH Hl) as [I1 I2]. split; [exact I1|].
      intros y [<- | Hy] Ha; [congruence | auto].
Qed.

(** X23 (the active link while scrolling).  For sections whose id the
    selector takes literally, [updateActiveNavOnScroll] picks the last
    section, in document order, that holds the point one third of the
    window below its top edge.  If there is none it leaves
    the links as they are; otherwise it keeps the links and their order,
    leaves at most one of them active, and an active link points to the
    section picked. *)
Theorem updateActiveNavOnScroll_one_active (sections : list Section_)
  (navLinks : list NavLink) (scrollY innerHeight : Q) :
  let scrollPosition := (scrollY + innerHeight / 3)%Q in
  let holds := fun section =>
    Qle_bool (offsetTop section) scrollPosition
    && Qle_bool scrollPosition (offsetTop section + offsetHeight section) in
  let result := updateActiveNavOnScroll sections navLinks scrollY innerHeight in
  activeSectionAt sections scrollPosition = find holds (rev sections)
  /\ (forallb (fun section => negb (holds section)) sections = true ->
      result = navLinks)
  /\ map href result = map href navLinks
  /\ (forall section,
        find holds (rev sections) = Some section ->
        (length (filter linkActive result) <= 1)%nat
        /\ forall link, In link result -> linkActive link = true ->
             href link = ("#" ++ sectionId section)%string).
Proof.
  cbv zeta.
  assert (E : activeSectionAt sections (scrollY + innerHeight / 3)
              = find (fun section =>
                        Qle_bool (offsetTop section)
                          (scrollY + innerHeight / 3)
                        && Qle_bool (scrollY + innerHeight / 3)
                             (offsetTop section + offsetHeight section))
                  (rev sections)).
  { unfold activeSectionAt. cbv zeta.
    rewrite (last_match_fold _
               (fun section =>
                  Qle_bool (offsetTop section) (scrollY + innerHeight / 3)
                  && Qle_bool (scrollY + innerHeight / 3)
                       (offsetTop section + offsetHeight section))).
    destruct (find _ (rev sections)); reflexivity. }
  unfold updateActiveNavOnScroll. cbv zeta. rewrite E.
  split; [reflexivity | split; [|split]].
  - intros H.
    destruct (find _ (rev sections)) as [x|] eqn:F; trivial.
    apply find_some in F. destruct F as [Hin Hx].
    apply in_rev in Hin. rewrite forallb_forall in H.
    specialize (H x Hin). cbv beta in H. rewrite Hx in H. discriminate H.
  - destruct (find _ (rev sections)) as [x|]; simpl; trivial.
    rewrite activateFirst_href, map_map. reflexivity.
  - intros section F. rewrite F. simpl.
    apply activateFirst_count.
    rewrite forallb_forall. intros y Hy.
    apply in_map_iff in Hy. destruct Hy as (z & <- & _). reflexivity.
Qed.

Lemma updateActiveNavOnScroll_one_active_witness :
  let sections := [mkSection "home" 0 600 eq_refl;
                   mkSection "about" 600 500 eq_refl;
                   mkSection "work" 1000 700 eq_refl] in
  let navLinks := [mkNavLink "#home" true; mkNavLink "#about" false;
                   mkNavLink "#work" false; mkNavLink "#work" false] in
  let result := updateActiveNavOnScroll sections navLinks 800 900 in
  (length (filter linkActive result) <= 1)%nat
  /\ forall link, In link result -> linkActive link = true ->
       href link = "#work"%string.
Proof.
  intros sections navLinks result.
  destruct (updateActiveNavOnScroll_one_active sections navLinks 800 900)
    as (_ & _ & _ & H).
  apply (H (mkSection "work" 1000 700 eq_refl)). reflexivity.
Defined.

Lemma mostVisible_invariant (entries : list Entry) :
  forall (seen : list Entry) (m : Q) (a : option Section_),
    (0 <= m)%Q ->
    (forall e, In e seen -> isIntersecting e = true ->
       (intersectionRatio e <= m)%Q) ->
    match a with
    | None => m = 0%Q
    | Some s =>
        exists e, In e seen /\ target e = s /\ isIntersecting e = true
                  /\ intersectionRatio e = m /\ (0 < m)%Q
    end ->
    let r :=
      fold_left
        (fun acc entry =>
           let '(maxRatio, activeSection) := acc in
           if isIntersecting entry
              && Qgtb (intersectionRatio entry) maxRatio
           then (intersectionRatio entry, Some (target entry))
           else acc)
        entries (m, a) in
    (forall e, In e (seen ++ entries) -> isIntersecting e = true ->
       (intersectionRatio e <= fst r)%Q)
    /\ match snd r with
       | None => fst r = 0%Q
       | Some s =>
           exists e, In e (seen ++ entries) /\ target e = s
                     /\ isIntersecting e = true
                     /\ intersectionRatio e = fst r /\ (0 < fst r)%Q
       end.
Proof.
  induction entries as [|x entries IH]; intros seen m a Hm Hseen Ha.
  - cbv zeta. simpl. rewrite app_nil_r. auto.
  - cbv zeta. cbn [fold_left].
    replace (seen ++ x :: entries) with ((seen ++ [x]) ++ entries)
      by (rewrite <- app_assoc; reflexivity).
    destruct (isIntersecting x) eqn:Hi;
      [destruct (Qgtb (intersectionRatio x) m) eqn:Hg|];
      cbn [andb].
    + apply Qgtb_lt in Hg. apply IH.
      * lra.
      * intros e He Hie. apply in_app_or in He. destruct He as [He | [<- | []]].
        -- specialize (Hseen e He Hie). lra.
        -- lra.
      * exists x. repeat split; trivial; try lra.
        apply in_or_app. right. simpl. auto.
    + apply Qgtb_le in Hg. apply IH; trivial.
      * intros e He Hie. apply in_app_or in He. destruct He as [He | [<- | []]].
        -- auto.
        -- exact Hg.
      * destruct a as [s|]; trivial.
        destruct Ha as (e & He & Hr). exists e. split; trivial.
        apply in_or_app. auto.
    + apply IH; trivial.
      * intros e He Hie. apply in_app_or in He. destruct He as [He | [<- | []]].
        -- auto.
        -- congruence.
      * destruct a as [s|]; trivial.
        destruct Ha as (e & He & Hr). exists e. split; trivial.
        apply in_or_app. auto.
Qed.

(** X24 (the section the observer callback picks).  Among the entries it
    is given, the callback of the intersection observer picks the target
    of an intersecting entry with a positive ratio that no intersecting
    entry exceeds; it picks nothing exactly when no intersecting entry has
    a positive ratio, and then the links stay as they are. *)
Theorem mostVisible_is_maximal (entries : list Entry) :
  let r := mostVisible entries in
  (forall e, In e entries -> isIntersecting e = true ->
     (intersectionRatio e <= fst r)%Q)
  /\ (forall s, snd r = Some s ->
        exists e, In e entries /\ target e = s /\ isIntersecting e = true
                  /\ intersectionRatio e = fst r /\ (0 < fst r)%Q)
  /\ (snd r = None
      <-> forall e, In e entries -> isIntersecting e = true ->
            (intersectionRatio e <= 0)%Q)
  /\ (snd r = None -> forall navLinks, highlight (snd r) navLinks = navLinks).
Proof.
  cbv zeta. unfold mostVisible.
  destruct (mostVisible_invariant entries [] 0 None) as [A B].
  - discriminate.
  - intros e [].
  - reflexivity.
  - cbv zeta in A, B. simpl app in A, B.
    split; [exact A | split; [|split]].
    + intros s Hs. rewrite Hs in B. exact B.
    + split.
      * intros Hn. rewrite Hn in B. rewrite B in A. exact A.
      * intros H.
        destruct (snd (fold_left _ entries (0%Q, None))) as [s|] eqn:Hs;
          trivial.
        destruct B as (e & He & _ & Hi & Hr & Hp).
        specialize (H e He Hi). rewrite Hr in H. lra.
    + intros Hn navLinks. rewrite Hn. reflexivity.
Qed.

Lemma emailRegex_accepts_witness :
  regexTest emailRegex [106; 111; 64; 98; 46; 99; 111]%N = true.
Proof.
  apply (proj2 (emailRegex_accepts [106; 111; 64; 98; 46; 99; 111]%N)).
  exists [106; 111]%N, [98]%N, [99; 111]%N.
  repeat split; try discriminate; reflexivity.
Defined.

Lemma validateFormSubmission_verdict_witness :
  let data := contactData (Some [65]%N) (Some [97; 64; 98; 46; 99]%N)
                None (Some [104; 105]%N) in
  fst (validateFormSubmission data) = false
  /\ firstErrorField (snd (validateFormSubmission data)) = Some "name"%string
  /\ map fst (snd (validateFormSubmission data))
     = ["name"; "projectType"; "message"]%string.
Proof.
  intros data.
  destruct (validateFormSubmission_verdict data) as (A & _ & B & C).
  split; [exact A | split; [exact C | exact B]].
Defined.

Lemma validateField_state_witness :
  let field := mkField "phone" [32; 32]%N true false in
  fst (fst (validateField field)) = true
  /\ classValid (snd (validateField field)) = true
  /\ classError (snd (validateField field)) = false.
Proof.
  intros field.
  destruct (validateField_state field) as (A & B & _ & _ & _ & C).
  assert (V : fst (fst (validateField field)) = true)
    by (apply C; reflexivity).
  split; [exact V | split].
  - rewrite A. exact V.
  - rewrite B, V. reflexivity.
Defined.

Lemma updateCounter_classes_witness :
  fst (updateCounter 1001) = true /\ snd (updateCounter 1000) = false
  /\ fst (updateCounter 1000) = true /\ fst (updateCounter 900) = false.
Proof.
  destruct (updateCounter_classes 1001) as (_ & B & C).
  destruct (updateCounter_classes 1000) as (A0 & B0 & _).
  destruct (updateCounter_classes 900) as (A9 & _ & _).
  split; [apply C; rewrite B; reflexivity|].
  split; [rewrite B0; reflexivity|].
  split; [rewrite A0; reflexivity | rewrite A9; reflexivity].
Defined.

Lemma menu_classes_agree_witness :
  let m := fold_left menuStep
             [TogglePointerdown; DocumentClick true false;
              DocumentKeydown false] (mkMenu false false false) in
  m = mkMenu true true true
  /\ menuStep m (MenuResize 1024) = mkMenu false false false
  /\ menuStep m (DocumentKeydown true) = mkMenu false false false.
Proof.
  intros m. split; [reflexivity|].
  destruct (menu_classes_agree
              [TogglePointerdown; DocumentClick true false;
               DocumentKeydown false]) as (_ & _ & _ & K & R).
  split; [apply R; lia | exact K].
Defined.

Lemma mostVisible_is_maximal_witness :
  let about := mkSection "about" 600 500 eq_refl in
  let work := mkSection "work" 1000 700 eq_refl in
  let entries := [mkEntry about true 0.25; mkEntry work true 0.5;
                  mkEntry about false 0.75] in
  snd (mostVisible entries) = Some work
  /\ exists e, In e entries /\ target e = work /\ isIntersecting e = true
               /\ intersectionRatio e = fst (mostVisible entries)
               /\ (0 < fst (mostVisible entries))%Q.
Proof.
  intros about work entries. split; [reflexivity|].
  destruct (mostVisible_is_maximal entries) as (_ & B & _).
  apply B. reflexivity.
Defined.

(** ** Releases and the displayed offset, on whole gestures *)


Lemma touchmove_session (ts : list touch) (w : positive) (s : App) :
  startX (touchmove ts w s) = startX s
  /\ startTime (touchmove ts w s) = startTime s
  /\ initialTransform (touchmove ts w s) = initialTransform s
  /\ currentSlide (touchmove ts w s) = currentSlide s
  /\ totalSlides (touchmove ts w s) = totalSlides s.
Proof.
  unfold touchmove. destruct ts as [|[x y] [|? ?]]; auto.
  cbv zeta. split_ifs; auto.
Qed.



Lemma touchstart_session (p : touch) (t0 : Z) (s : App) :
  startX (step (t0, TouchStart [p]) s) = fst p
  /\ startTime (step (t0, TouchStart [p]) s) = t0
  /\ initialTransform (step (t0, TouchStart [p]) s)
     = inject_Z (- currentSlide s * 100)
  /\ currentSlide (step (t0, TouchStart [p]) s) = currentSlide s
  /\ totalSlides (step (t0, TouchStart [p]) s) = totalSlides s.
Proof. destruct p as [x y]. unfold step. simpl. auto. Qed.

Lemma mousemove_session (x : Q) (w : positive) (s : App) :
  isDragging (mousemove x w s) = isDragging s
  /\ isMobile (mousemove x w s) = isMobile s
  /\ startX (mousemove x w s) = startX s
  /\ startTime (mousemove x w s) = startTime s
  /\ initialTransform (mousemove x w s) = initialTransform s
  /\ currentSlide (mousemove x w s) = currentSlide s
  /\ totalSlides (mousemove x w s) = totalSlides s.
Proof.
  unfold mousemove. cbv zeta. split_ifs; repeat split; reflexivity.
Qed.



Lemma mousedown_session (x0 : Q) (t0 : Z) (s : App) :
  isMobile s = false ->
  isDragging (step (t0, MouseDown x0) s) = true
  /\ isMobile (step (t0, MouseDown x0) s) = false
  /\ startX (step (t0, MouseDown x0) s) = x0
  /\ startTime (step (t0, MouseDown x0) s) = t0
  /\ initialTransform (step (t0, MouseDown x0) s)
     = inject_Z (- currentSlide s * 100)
  /\ currentSlide (step (t0, MouseDown x0) s) = currentSlide s
  /\ totalSlides (step (t0, MouseDown x0) s) = totalSlides s.
Proof.
  intros Hm. unfold step. simpl fst. simpl snd. unfold dispatch, mousedown.
  change (isMobile (set_clock t0 s)) with (isMobile s). rewrite Hm.
  cbv zeta. simpl. rewrite Hm. repeat split; reflexivity.
Qed.




(** ** The displayed offset during a drag *)

Lemma resistanceTransform_resisted (f : Q) (total : Z) (raw : Q) :
  (0 < f)%Q -> (f < 1)%Q -> 1 <= total ->
  Resisted f (inject_Z (- (total - 1) * 100)) raw
    (resistanceTransform f total raw).
Proof.
  intros Hf0 Hf1 Hn.
  pose proof (minTransform_nonpos total Hn) as Hlo.
  change (inject_Z (- (total - 1) * 100)) with (minTransform total).
  unfold Resisted, resistanceTransform, maxTransform.
  generalize dependent (minTransform total). intros lo Hlo.
  destruct (Qgtb raw 0) eqn:A;
    [apply Qgtb_lt in A | apply Qgtb_le in A];
    (destruct (Qltb raw lo) eqn:B;
     [apply Qltb_lt in B | apply Qltb_ge in B]);
    repeat split; intros; try lra; try nra.
Qed.

Lemma touchmove_horizontal (s : App) (x y : Q) (w : positive) :
  horizontalSession (touchmove [(x, y)] w s) = true ->
  transform (touchmove [(x, y)] w s)
  = resistanceTransform 0.3 (totalSlides s)
      (initialTransform s + dragOffset (x - startX s) w)%Q.
Proof.
  unfold horizontalSession, touchmove. cbv zeta.
  cbn -[Qabs Qminus Qplus Qgtb resistanceTransform dragOffset].
  destruct (isDragging s) eqn:Hd, (isHorizontalSwipe s) eqn:Hh;
    repeat (progress
              (cbn -[Qabs Qminus Qplus Qgtb resistanceTransform dragOffset];
               rewrite ?Hd, ?Hh));
    try discriminate; try reflexivity;
    destruct (Qgtb (Qabs (x - startX s)) 10 || Qgtb (Qabs (y - startY s)) 10);
    repeat (progress
              (cbn -[Qabs Qminus Qplus Qgtb resistanceTransform dragOffset];
               rewrite ?Hd, ?Hh));
    try discriminate;
    destruct (Qgtb (Qabs (x - startX s)) (Qabs (y - startY s))
              && Qgtb (Qabs (x - startX s)) 15);
    repeat (progress
              (cbn -[Qabs Qminus Qplus Qgtb resistanceTransform dragOffset];
               rewrite ?Hd, ?Hh));
    try discriminate; reflexivity.
Qed.

Lemma touchmove_idle (s : App) (ts : list touch) (w : positive) :
  horizontalSession (touchmove ts w s) = false ->
  transform (touchmove ts w s) = transform s.
Proof.
  unfold horizontalSession, touchmove.
  destruct ts as [|[x y] [|? ?]]; try reflexivity. cbv zeta.
  cbn -[Qabs Qminus Qplus Qgtb resistanceTransform dragOffset].
  destruct (isDragging s) eqn:Hd, (isHorizontalSwipe s) eqn:Hh;
    repeat (progress
              (cbn -[Qabs Qminus Qplus Qgtb resistanceTransform dragOffset];
               rewrite ?Hd, ?Hh));
    try discriminate; try reflexivity;
    destruct (Qgtb (Qabs (x - startX s)) 10 || Qgtb (Qabs (y - startY s)) 10);
    repeat (progress
              (cbn -[Qabs Qminus Qplus Qgtb resistanceTransform dragOffset];
               rewrite ?Hd, ?Hh));
    try discriminate; try reflexivity;
    destruct (Qgtb (Qabs (x - startX s)) (Qabs (y - startY s))
              && Qgtb (Qabs (x - startX s)) 15);
    repeat (progress
              (cbn -[Qabs Qminus Qplus Qgtb resistanceTransform dragOffset];
               rewrite ?Hd, ?Hh));
    try discriminate; reflexivity.
Qed.

Lemma mousemove_dead_zone (s : App) (x : Q) (w : positive) :
  isDragging s = false \/ isMobile s = true \/ (Qabs (x - startX s) <= 5)%Q ->
  transform (mousemove x w s) = transform s.
Proof.
  intros H. unfold mousemove. cbv zeta.
  destruct (negb (isDragging s) || isMobile s) eqn:G; [reflexivity|].
  apply orb_false_iff in G. destruct G as [Gd Gm].
  apply negb_false_iff in Gd.
  destruct H as [H | [H | H]]; [congruence | congruence |].
  change (currentX (set_currentX x s)) with x.
  change (startX (set_currentX x s)) with (startX s).
  apply Qgtb_le in H. rewrite H. reflexivity.
Qed.

Lemma updateSliderPosition_origin (s : App) :
  startX (updateSliderPosition s) = startX s
  /\ initialTransform (updateSliderPosition s) = initialTransform s
  /\ totalSlides (updateSliderPosition s) = totalSlides s.
Proof. unfold updateSliderPosition. split_ifs; auto. Qed.

Lemma nextSlide_origin (s : App) :
  startX (nextSlide s) = startX s
  /\ initialTransform (nextSlide s) = initialTransform s
  /\ totalSlides (nextSlide s) = totalSlides s.
Proof.
  unfold nextSlide. destruct (isAnimating s || (totalSlides s =? 0)); auto.
  exact (updateSliderPosition_origin (set_currentSlide _ s)).
Qed.

Lemma previousSlide_origin (s : App) :
  startX (previousSlide s) = startX s
  /\ initialTransform (previousSlide s) = initialTransform s
  /\ totalSlides (previousSlide s) = totalSlides s.
Proof.
  unfold previousSlide. destruct (isAnimating s || (totalSlides s =? 0)); auto.
  exact (updateSliderPosition_origin (set_currentSlide _ s)).
Qed.

Lemma goToSlide_origin (i : Z) (s : App) :
  startX (goToSlide i s) = startX s
  /\ initialTransform (goToSlide i s) = initialTransform s
  /\ totalSlides (goToSlide i s) = totalSlides s.
Proof.
  unfold goToSlide.
  destruct (isAnimating s || (totalSlides s =? 0) || (i =? currentSlide s));
    auto.
  exact (updateSliderPosition_origin (set_currentSlide i s)).
Qed.

Lemma applyDecision_origin (d : bool * Z) (s : App) :
  startX (applyDecision d s) = startX s
  /\ initialTransform (applyDecision d s) = initialTransform s
  /\ totalSlides (applyDecision d s) = totalSlides s.
Proof.
  destruct d as [[|] z]; unfold applyDecision.
  - destruct (z >? 0); [apply nextSlide_origin | apply previousSlide_origin].
  - apply updateSliderPosition_origin.
Qed.

Lemma dispatch_origin (e : Event) (s : App) :
  startsDrag e = false ->
  startX (dispatch e s) = startX s
  /\ initialTransform (dispatch e s) = initialTransform s
  /\ totalSlides (dispatch e s) = totalSlides s.
Proof.
  intros He. destruct e; try discriminate He; unfold dispatch.
  - destruct (touchmove_session touches offsetWidth s) as (A & _ & B & _ & C).
    auto.
  - unfold touchend, touchRelease.
    destruct (negb (isDragging s) || negb (isHorizontalSwipe s)); auto.
    cbv zeta.
    exact (applyDecision_origin _ (enableTransition s)).
  - destruct (mousemove_session clientX offsetWidth s)
      as (_ & _ & A & _ & B & _ & C).
    auto.
  - unfold mouseup, mouseRelease.
    destruct (negb (isDragging s) || isMobile s); auto.
    cbv zeta.
    exact (applyDecision_origin _ (enableTransition s)).
  - unfold mouseleave.
    destruct (isDragging s && negb (isMobile s)); auto.
    exact (updateSliderPosition_origin (enableTransition s)).
  - destruct k; unfold keydown; auto using nextSlide_origin,
      previousSlide_origin, goToSlide_origin.
  - apply previousSlide_origin.
  - apply nextSlide_origin.
  - apply goToSlide_origin.
  - unfold resize. auto.
  - destruct (timers s); auto.
  - auto.
  - auto.
Qed.

Lemma sameSession_origin (tr : list stamped) :
  forall s,
    sameSession tr = true ->
    startX (run tr s) = startX s
    /\ initialTransform (run tr s) = initialTransform s
    /\ totalSlides (run tr s) = totalSlides s.
Proof.
  induction tr as [|[t e] tr IH]; intros s H; simpl; auto.
  unfold sameSession in H. simpl in H.
  apply andb_true_iff in H. destruct H as [He H].
  apply negb_true_iff in He.
  destruct (IH (step (t, e) s) H) as (A & B & C).
  destruct (dispatch_origin e (set_clock t s) He) as (A' & B' & C').
  unfold step in *. simpl fst in *. simpl snd in *.
  rewrite A, B, C, A', B', C'. auto.
Qed.

(** C4, as the code has it.  The range is from [-(totalSlides - 1) * 100]
    to 0 and the raw offset is [base + drag], where [base] is
    [-currentSlide * 100] as it was when the drag started and [drag] is the
    displacement of the sample from the start, as a percentage of the
    container's width.  A touchmove that leaves the session horizontal
    displays the raw offset under the resistance of factor 0.3: the raw
    offset inside the range, the bound plus the overshoot times the factor
    beyond a bound, so that the excess shown is the overshoot times the
    factor and less than the overshoot, and the bound at the bound.  A
    mousemove of a drag more than 5 pixels from the press displays it
    under the factor 0.2.  A touchmove that leaves the session not
    horizontal, and a mousemove within 5 pixels of the press or with no
    drag in progress, leave the displayed offset as it was. *)
Theorem drag_displays_resisted_offset (s : App) (t0 tq : Z) (w : positive) :
  1 <= totalSlides s ->
  let base := inject_Z (- currentSlide s * 100) in
  let lo := inject_Z (- (totalSlides s - 1) * 100) in
  (forall p q tr,
     sameSession tr = true ->
     let s1 := run tr (step (t0, TouchStart [p]) s) in
     let s2 := step (tq, TouchMove [q] w) s1 in
     let raw := (base + (fst q - fst p) / inject_Z (Z.pos w) * 100)%Q in
     (horizontalSession s2 = true -> Resisted 0.3 lo raw (transform s2))
     /\ (horizontalSession s2 = false -> transform s2 = transform s1))
  /\ (forall x0 x1 tr,
        isMobile s = false ->
        sameSession tr = true ->
        let s1 := run tr (step (t0, MouseDown x0) s) in
        let s2 := step (tq, MouseMove x1 w) s1 in
        let raw := (base + (x1 - x0) / inject_Z (Z.pos w) * 100)%Q in
        (isDragging s1 = true -> isMobile s1 = false ->
         (5 < Qabs (x1 - x0))%Q ->
         Resisted 0.2 lo raw (transform s2))
        /\ (isDragging s1 = false \/ isMobile s1 = true
            \/ (Qabs (x1 - x0) <= 5)%Q ->
            transform s2 = transform s1)).
Proof.
  intros Hn. cbv zeta. split.
  - intros p q tr Htr.
    destruct (sameSession_origin tr (step (t0, TouchStart [p]) s) Htr)
      as (X & I & N).
    destruct (touchstart_session p t0 s) as (X0 & _ & I0 & _ & N0).
    rewrite X0 in X. rewrite I0 in I. rewrite N0 in N.
    set (s1 := run tr (step (t0, TouchStart [p]) s)) in *.
    change (step (tq, TouchMove [q] w) s1)
      with (touchmove [q] w (set_clock tq s1)).
    destruct q as [x y]. simpl fst. unfold touch in *. split.
    + intros Hh. rewrite (touchmove_horizontal _ _ _ _ Hh).
      change (totalSlides (set_clock tq s1)) with (totalSlides s1).
      change (initialTransform (set_clock tq s1)) with (initialTransform s1).
      change (startX (set_clock tq s1)) with (startX s1).
      rewrite X, I, N. unfold dragOffset.
      apply resistanceTransform_resisted; [reflexivity | reflexivity | exact Hn].
    + intros Hh. rewrite (touchmove_idle _ _ _ Hh). reflexivity.
  - intros x0 x1 tr Hm Htr.
    destruct (sameSession_origin tr (step (t0, MouseDown x0) s) Htr)
      as (X & I & N).
    destruct (mousedown_session x0 t0 s Hm) as (_ & _ & X0 & _ & I0 & _ & N0).
    rewrite X0 in X. rewrite I0 in I. rewrite N0 in N.
    set (s1 := run tr (step (t0, MouseDown x0) s)) in *.
    change (step (tq, MouseMove x1 w) s1)
      with (mousemove x1 w (set_clock tq s1)).
    split.
    + intros Hd Hmb Hx. rewrite mousemove_shows.
      * change (totalSlides (set_clock tq s1)) with (totalSlides s1).
        change (initialTransform (set_clock tq s1))
          with (initialTransform s1).
        change (startX (set_clock tq s1)) with (startX s1).
        rewrite X, I, N. unfold dragOffset.
        apply resistanceTransform_resisted;
          [reflexivity | reflexivity | exact Hn].
      * exact Hd.
      * exact Hmb.
      * change (startX (set_clock tq s1)) with (startX s1).
        rewrite X. exact Hx.
    + intros H. rewrite mousemove_dead_zone; [reflexivity|].
      change (startX (set_clock tq s1)) with (startX s1). rewrite X.
      exact H.
Qed.

Lemma drag_displays_resisted_offset_witness :
  let s := releaseLock (boot 5 1024 0) in
  let touched := run [(1020, KeyDown ArrowRight)]
                   (step (1000, TouchStart [(200 # 1, 100 # 1)]) s) in
  let pressed := run [] (step (1000, MouseDown (200 # 1)) s) in
  Resisted 0.3 (inject_Z (- (totalSlides s - 1) * 100))
    (inject_Z (- currentSlide s * 100)
     + ((170 # 1) - (200 # 1)) / inject_Z 300 * 100)%Q
    (transform (step (1050, TouchMove [(170 # 1, 100 # 1)] 300) touched))
  /\ Resisted 0.2 (inject_Z (- (totalSlides s - 1) * 100))
       (inject_Z (- currentSlide s * 100)
        + ((290 # 1) - (200 # 1)) / inject_Z 300 * 100)%Q
       (transform (step (1050, MouseMove (290 # 1) 300) pressed))
  /\ transform (step (1050, MouseMove (203 # 1) 300) pressed)
     = transform pressed.
Proof.
  intros s touched pressed.
  assert (Hn : 1 <= totalSlides s) by (vm_compute; discriminate).
  destruct (drag_displays_resisted_offset s 1000 1050 300 Hn) as (T & M).
  destruct (T (200 # 1, 100 # 1) (170 # 1, 100 # 1)
              [(1020, KeyDown ArrowRight)] eq_refl) as (TH & _).
  destruct (M (200 # 1) (290 # 1) [] eq_refl eq_refl) as (MH & _).
  destruct (M (200 # 1) (203 # 1) [] eq_refl eq_refl) as (_ & MD).
  split; [|split].
  - apply TH. reflexivity.
  - apply MH; reflexivity.
  - apply MD. right. right. vm_compute. discriminate.
Defined.

(** C4 as stated fails.  After a press at x = 200 and a mousemove to 150
    on a container 300 pixels wide, a mousemove to 197 has the raw offset
    0 + (-3 / 300) * 100 = -1, inside the range from -400 to 0, yet the
    displayed offset stays at -50/3: within 5 pixels of the press the
    listener does not update it.  After a touch at x = 200 on slide 0, a
    press of ArrowRight that moves to slide 1 and a touchmove to 170, the
    raw offset from the current index is -100 + (-30 / 300) * 100 = -110,
    inside the range, yet the displayed offset is -10: the base is the one
    recorded at the start of the touch. *)
Lemma drag_offset_not_from_current_index :
  let s := releaseLock (boot 5 1024 0) in
  let lo := inject_Z (- (totalSlides s - 1) * 100) in
  let nudged :=
    run [(1000, MouseDown (200 # 1));
         (1050, MouseMove (150 # 1) 300);
         (1100, MouseMove (197 # 1) 300)] s in
  let keyed :=
    run [(1000, TouchStart [(200 # 1, 100 # 1)]);
         (1020, KeyDown ArrowRight);
         (1050, TouchMove [(170 # 1, 100 # 1)] 300)] s in
  let rawNudged :=
    (inject_Z (- currentSlide nudged * 100)
     + ((197 # 1) - (200 # 1)) / inject_Z 300 * 100)%Q in
  let rawKeyed :=
    (inject_Z (- currentSlide keyed * 100)
     + ((170 # 1) - (200 # 1)) / inject_Z 300 * 100)%Q in
  ((rawNudged == -1 # 1)%Q
   /\ (lo <= rawNudged /\ rawNudged <= 0)%Q
   /\ isDragging nudged = true
   /\ (transform nudged == -50 # 3)%Q
   /\ ~ Resisted 0.2 lo rawNudged (transform nudged))
  /\ (currentSlide keyed = 1
      /\ (rawKeyed == -110 # 1)%Q
      /\ (lo <= rawKeyed /\ rawKeyed <= 0)%Q
      /\ horizontalSession keyed = true
      /\ (transform keyed == -10 # 1)%Q
      /\ ~ Resisted 0.3 lo rawKeyed (transform keyed)).
Proof.
  cbv zeta. split.
  - split; [reflexivity|].
    split; [split; vm_compute; discriminate|].
    split; [reflexivity|].
    split; [reflexivity|].
    intros (H & _).
    assert (R : (inject_Z (- (5 - 1) * 100) <= -1 # 1 /\ (-1 # 1) <= 0)%Q)
      by (split; vm_compute; discriminate).
    apply H in R. vm_compute in R. discriminate R.
  - split; [reflexivity|].
    split; [reflexivity|].
    split; [split; vm_compute; discriminate|].
    split; [reflexivity|].
    split; [reflexivity|].
    intros (H & _).
    assert (R : (inject_Z (- (5 - 1) * 100) <= -110 # 1
                 /\ (-110 # 1) <= 0)%Q)
      by (split; vm_compute; discriminate).
    apply H in R. vm_compute in R. discriminate R.
Qed.
